(** * rosbag2pandas: a shallow embedding of [rosbag2pandas/rosbag2pandas.py]

    The program reads a ROS 2 bag, groups the serialized messages and their
    time stamps by topic, deserializes every topic with a worker pool, joins
    the flattened messages with the stamps into one data frame per topic,
    sorts it by stamp and writes one file per topic.

    Part I holds the model: Python values and exceptions, the few pandas and
    multiprocessing operations the program calls (each described where it is
    defined), and the three functions of the module, [parse_data],
    [save_to_file] and [main].  Part II holds the properties. *)

From stdpp Require Import base option list strings gmap sorting.
From Stdlib Require Import Strings.Ascii Strings.Byte ZArith Lia.

Local Open Scope Z_scope.
Local Open Scope string_scope.
Local Open Scope list_scope.

(* ===================================================================== *)
(** * Part I.  The model *)
(* ===================================================================== *)

(** ** Exceptions and results *)

(** The exceptions that can leave a call of the module.  [ExternalError]
    stands for whatever a library raises on data it rejects (a message that
    does not deserialize, a type name without a Python class). *)
Inductive exn : Type :=
| IndexError
| KeyError (key : string)
| ValueError (msg : string)
| TypeError (msg : string)
| SystemExit (code : Z)
| ExternalError (what : string).

Inductive result (A : Type) : Type :=
| Ok (a : A)
| Raise (e : exn).
Arguments Ok {A} a.
Arguments Raise {A} e.

#[global] Instance result_ret : MRet result := fun A a => Ok a.
#[global] Instance result_bind : MBind result := fun A B f m =>
  match m with
  | Ok a => f a
  | Raise e => Raise e
  end.
#[global] Instance result_fmap : FMap result := fun A B f m =>
  match m with
  | Ok a => Ok (f a)
  | Raise e => Raise e
  end.

Definition is_Ok {A} (r : result A) : Prop := ∃ a, r = Ok a.

(** [list(map(f, xs))]: the calls are made from left to right and the first
    exception ends the traversal. *)
Fixpoint map_result {A B} (f : A → result B) (xs : list A) : result (list B) :=
  match xs with
  | [] => Ok []
  | x :: xs' => y ← f x; ys ← map_result f xs'; Ok (y :: ys)
  end.

(** ** Python strings *)

Module Str.

(** [s[0]] *)
Definition getitem0 (s : string) : result ascii :=
  match s with
  | EmptyString => Raise IndexError
  | String c _ => Ok c
  end.

(** [s.lstrip(c)] for a one-character argument: every leading [c] goes. *)
Fixpoint lstrip (c : ascii) (s : string) : string :=
  match s with
  | EmptyString => EmptyString
  | String a s' => if decide (a = c) then lstrip c s' else s
  end.

(** [s.replace(c, d)] for one-character arguments. *)
Fixpoint replace (c d : ascii) (s : string) : string :=
  match s with
  | EmptyString => EmptyString
  | String a s' => String (if decide (a = c) then d else a) (replace c d s')
  end.

(** [c in s] for a one-character [c]. *)
Fixpoint contains (c : ascii) (s : string) : bool :=
  match s with
  | EmptyString => false
  | String a s' => bool_decide (a = c) || contains c s'
  end.

End Str.

(** The expression of lines 50-52,
    [(topic_name if topic_name[0] != "/" else topic_name.lstrip("/")).replace("/", "_")].
    The condition is evaluated first, so the index access comes before
    anything else. *)
Definition file_name (topic_name : string) : result string :=
  c ← Str.getitem0 topic_name;
  Ok (Str.replace "/" "_"
        (if decide (c ≠ "/"%char) then topic_name
         else Str.lstrip "/" topic_name)).

(** ** Insertion-ordered dictionaries

    A Python [dict] (and [OrderedDict]) iterates in the order in which its
    keys were first inserted, and the program iterates over its dictionaries,
    so they are kept as association lists in insertion order. *)

Module Dict.
Section Ops.
Context {V : Type}.

(** [d.get(k)] *)
Fixpoint get (k : string) (d : list (string * V)) : option V :=
  match d with
  | [] => None
  | (k', v) :: d' => if decide (k' = k) then Some v else get k d'
  end.

(** [d[k]] *)
Definition getitem (k : string) (d : list (string * V)) : result V :=
  match get k d with
  | Some v => Ok v
  | None => Raise (KeyError k)
  end.

(** [k in d.keys()] *)
Definition contains (k : string) (d : list (string * V)) : bool :=
  match get k d with
  | Some _ => true
  | None => false
  end.

(** [d[k] = v]: a present key keeps its place, a new one goes last. *)
Fixpoint set (k : string) (v : V) (d : list (string * V)) : list (string * V) :=
  match d with
  | [] => [(k, v)]
  | (k', v') :: d' =>
      if decide (k' = k) then (k, v) :: d' else (k', v') :: set k v d'
  end.

(** [d.keys()] *)
Definition keys (d : list (string * V)) : list string := d.*1.

(** [{**d1, **d2}] *)
Definition update (d1 d2 : list (string * V)) : list (string * V) :=
  fold_left (fun acc kv => set kv.1 kv.2 acc) d2 d1.
End Ops.
End Dict.

(** ** Decoded messages

    [message_to_ordereddict] turns a message into an [OrderedDict] from field
    name to value, in the order of the message definition: a nested message
    becomes a nested dictionary, an array or sequence a list, anything else a
    Python scalar.  A float is kept as its bit pattern. *)
#[warnings="-register-all"]
Inductive value : Type :=
| VBool (b : bool)
| VInt (z : Z)
| VFloat (bits : Z)
| VStr (s : string)
| VList (l : list value)
| VDict (d : list (string * value)).

(** ** The pandas operations the program calls *)

Module Pandas.

(** A missing entry of a frame, or a Python object. *)
Inductive cell : Type :=
| NaN
| Val (v : value).

(** A data frame: the row labels, the column labels, and the rows. *)
Record DataFrame : Type := mkDataFrame {
  index : list nat;
  columns : list string;
  rows : list (list cell)
}.

(** [json_normalize] names the column of a nested value by the keys on the
    way to it, joined by [sep = "."]; a key directly under the top has no
    prefix. *)
Definition new_key (key_string key : string) : string :=
  if decide (key_string = "") then key else key_string +:+ "." +:+ key.

(** The flattening of one value under the name [key_string]: a dictionary
    is entered, every other value (a list included) is stored whole under
    its name. *)
Fixpoint normalise_json (data : value) (key_string : string)
    (normalized_dict : list (string * value)) : list (string * value) :=
  match data with
  | VDict d =>
      (fix items (d : list (string * value)) (acc : list (string * value)) :=
         match d with
         | [] => acc
         | (key, v) :: d' => items d' (normalise_json v (new_key key_string key) acc)
         end) d normalized_dict
  | _ => Dict.set key_string data normalized_dict
  end.

Definition is_dict (v : value) : bool :=
  match v with
  | VDict _ => true
  | _ => false
  end.

(** One record: the values at the top that are not dictionaries come
    first, in their order, then the flattened dictionaries. *)
Definition normalise_json_ordered (data : list (string * value)) : list (string * value) :=
  let top_dict := filter (fun kv => is_dict kv.2 = false) data in
  let nested_dict := normalise_json (VDict (filter (fun kv => is_dict kv.2 = true) data)) "" [] in
  Dict.update (Dict.update [] top_dict) nested_dict.

(** The columns of [DataFrame(list_of_dicts)]: every key, in the order of
    its first appearance. *)
Fixpoint union_keys (seen : list string) (ks : list string) : list string :=
  match ks with
  | [] => seen
  | k :: ks' => union_keys (if decide (k ∈ seen) then seen else seen ++ [k]) ks'
  end.

Definition record_columns (recs : list (list (string * value))) : list string :=
  fold_left (fun seen r => union_keys seen (Dict.keys r)) recs [].

Definition record_row (cols : list string) (r : list (string * value)) : list cell :=
  map (fun c => match Dict.get c r with Some v => Val v | None => NaN end) cols.

(** [DataFrame(list_of_dicts)]: one row per dictionary under a fresh
    [RangeIndex]; a key a dictionary lacks gives a missing entry. *)
Definition of_records (recs : list (list (string * value))) : DataFrame :=
  let cols := record_columns recs in
  {| index := seq 0 (length recs);
     columns := cols;
     rows := map (record_row cols) recs |}.

(** [pd.json_normalize(data)] on a list of dictionaries, all options at
    their defaults. *)
Definition json_normalize (data : list (list (string * value))) : DataFrame :=
  of_records (map normalise_json_ordered data).

(** [pd.DataFrame(values, columns=[name])] on a list of integers. *)
Definition of_column (values : list Z) (name : string) : DataFrame :=
  {| index := seq 0 (length values);
     columns := [name];
     rows := map (fun z => [Val (VInt z)]) values |}.

(** The row of [df] labelled [lbl], when there is one. *)
Definition loc (df : DataFrame) (lbl : nat) : option (list cell) :=
  '(i, _) ← list_find (fun l => l = lbl) (index df);
  rows df !! i.

(** [left.join(right)], all options at their defaults: a left join on the
    row labels.  Every row of [left] is kept, in order and under its label,
    and extended by the row of [right] with the same label, or by missing
    entries.  Without suffixes a column label on both sides is an error;
    pandas ends the text of this [ValueError] with the labels concerned, in
    a spelling of its own, which the text here leaves off. *)
Definition join (left right : DataFrame) : result DataFrame :=
  if decide (Exists (fun c => c ∈ columns right) (columns left))
  then Raise (ValueError "columns overlap but no suffix specified")
  else Ok {| index := index left;
             columns := columns left ++ columns right;
             rows := zip_with
                       (fun lbl row =>
                          row ++ default (replicate (length (columns right)) NaN)
                                         (loc right lbl))
                       (index left) (rows left) |}.

(** [df[by]] as a list of entries. *)
Definition column_values (df : DataFrame) (by_ : string) : result (list cell) :=
  match list_find (fun c => c = by_) (columns df) with
  | Some (j, _) => Ok (map (fun r => default NaN (r !! j)) (rows df))
  | None => Raise (KeyError by_)
  end.

(** The keys of an integer column.  The program sorts by its stamp column
    only, which holds the integers the reader returned; entries without an
    order among them make pandas raise, which is all the model keeps of
    the other column types. *)
Definition int_keys (cs : list cell) : result (list Z) :=
  map_result (fun c => match c with
                       | Val (VInt z) => Ok z
                       | _ => Raise (TypeError "unorderable sort key")
                       end) cs.

(** [rows.take(indexer)]: a position out of range is an error. *)
Definition take (indexer : list nat) (rs : list (list cell)) : result (list (list cell)) :=
  map_result (fun i => match rs !! i with
                       | Some r => Ok r
                       | None => Raise IndexError
                       end) indexer.

(** [df.sort_values(by=[by_], ignore_index=True)].  With one sort column
    pandas asks numpy for the positions that sort the keys,
    [keys.argsort(kind=kind)], and takes the rows at these positions;
    [ignore_index] relabels the rows [0 .. n-1].  The program leaves [kind]
    at its default, ["quicksort"], which numpy documents as not stable and
    carries out by a routine it picks by platform and size; the order it
    gives equal keys is not fixed, so the sorting routine is a parameter
    here. *)
Definition sort_values (argsort : list Z → list nat) (by_ : string)
    (df : DataFrame) : result DataFrame :=
  cs ← column_values df by_;
  ks ← int_keys cs;
  rs ← take (argsort ks) (rows df);
  Ok {| index := seq 0 (length rs); columns := columns df; rows := rs |}.

End Pandas.

(** ** numpy

    [argsort] of 64-bit integers under the default [kind], as numpy carries
    it out on a processor with AVX-512, for up to eight keys.  The keys are
    loaded into the eight lanes of one register, the lanes left over filled
    with the largest integer, and their positions into a second register;
    six rounds of a bitonic network sort the lanes.  In a round every lane
    looks at a partner lane: of the two, the lanes the mask marks take the
    larger key and the others the smaller, and a lane takes the partner's
    position when its key changes.  Lanes with equal keys keep their
    positions in the round that compares them, but an earlier round may
    have brought them there in either order, so equal keys do not keep the
    order of the input.  More than eight keys take wider networks and a
    partitioning step, which are not followed here: [argsort] leaves such an
    input as it is. *)
Module Numpy.

Definition INT64_MAX : Z := 9223372036854775807.

(** The partner lanes of the rounds, lane 0 first. *)
Definition SHUFFLE_1_1_1_1 : list nat := [1; 0; 3; 2; 5; 4; 7; 6]%nat.
Definition NETWORK_64BIT_1 : list nat := [3; 2; 1; 0; 7; 6; 5; 4]%nat.
Definition NETWORK_64BIT_2 : list nat := [7; 6; 5; 4; 3; 2; 1; 0]%nat.
Definition NETWORK_64BIT_3 : list nat := [2; 3; 0; 1; 6; 7; 4; 5]%nat.

(** One round on the keys and their positions: bit [i] of [mask] set gives
    lane [i] the larger key. *)
Definition cmp_merge (partner : list nat) (mask : nat)
    (reg : list (Z * nat)) : list (Z * nat) :=
  imap (fun i '(k, a) =>
          let '(k2, a2) := default (k, a) (j ← partner !! i; reg !! j) in
          let t := if Nat.testbit mask i then Z.max k k2 else Z.min k k2 in
          (t, if decide (t = k) then a else a2)) reg.

Definition sort_zmm_64bit (reg : list (Z * nat)) : list (Z * nat) :=
  let reg := cmp_merge SHUFFLE_1_1_1_1 170 reg in
  let reg := cmp_merge NETWORK_64BIT_1 204 reg in
  let reg := cmp_merge SHUFFLE_1_1_1_1 170 reg in
  let reg := cmp_merge NETWORK_64BIT_2 240 reg in
  let reg := cmp_merge NETWORK_64BIT_3 204 reg in
  cmp_merge SHUFFLE_1_1_1_1 170 reg.

Definition argsort (ks : list Z) : list nat :=
  let n := length ks in
  if decide (n ≤ 8)%nat
  then take n (sort_zmm_64bit
                 (zip (ks ++ replicate (8 - n) INT64_MAX)
                      (seq 0 n ++ replicate (8 - n) 0%nat))).*2
  else seq 0 n.

End Numpy.

(** ** The worker pool

    [multiprocessing.Pool] as the program uses it: [Pool(n)] and
    [pool.imap(func, iterable, chunksize)] consumed by [list(...)].  The
    iterable is cut into chunks, each chunk is one task, the workers finish
    the tasks in an order the program does not control, and the iterator
    behind [imap] hands the results out by task number. *)

Module Pool.

(** An argument that is an [int] or a [str]. *)
Inductive pyarg : Type :=
| PyInt (z : Z)
| PyStr (s : string).

(** [Pool(processes)]: the constructor compares [processes] with [1]. *)
Definition new (processes : pyarg) : result unit :=
  match processes with
  | PyInt z =>
      if decide (z < 1)
      then Raise (ValueError "Number of processes must be at least 1")
      else Ok ()
  | PyStr _ =>
      Raise (TypeError "'<' not supported between instances of 'str' and 'int'")
  end.

(** The chunks of at most [size] elements, in order.  There are no more
    chunks than elements, which bounds the recursion. *)
Fixpoint get_tasks_upto {A} (bound size : nat) (it : list A) : list (list A) :=
  match bound with
  | O => []
  | S bound' =>
      match it with
      | [] => []
      | _ :: _ => take size it :: get_tasks_upto bound' size (drop size it)
      end
  end.

Definition get_tasks {A} (size : nat) (it : list A) : list (list A) :=
  get_tasks_upto (length it) size it.

(** The order in which the tasks finish.  A schedule is any list of numbers:
    each one picks the next task to finish among those still pending, and
    when the list is used up the rest finish in order.  Every task finishes
    exactly once, whatever the schedule. *)
Fixpoint arrival_order {T} (sched : list nat) (pending : list T) : list T :=
  match sched with
  | [] => pending
  | n :: sched' =>
      let k := Nat.modulo n (length pending) in
      match pending !! k with
      | Some t => t :: arrival_order sched' (delete k pending)
      | None => pending
      end
  end.

Section Imap.
Context {A B St : Type}.

(** A task function may act on a state shared by the workers (the files on
    disk); [St] is [unit] for a function without effects. *)
Variable func : A → St → result B * St.

(** [mapstar]: a worker runs [list(map(func, chunk))]. *)
Fixpoint mapstar (chunk : list A) (s : St) : result (list B) * St :=
  match chunk with
  | [] => (Ok [], s)
  | x :: chunk' =>
      match func x s with
      | (Ok y, s') =>
          match mapstar chunk' s' with
          | (Ok ys, s'') => (Ok (y :: ys), s'')
          | (Raise e, s'') => (Raise e, s'')
          end
      | (Raise e, s') => (Raise e, s')
      end
  end.

(** [IMapIterator]: the results ready to be handed out, the number of the
    next task to hand out, and the results that arrived ahead of it. *)
Record IMapIterator : Type := mkIMapIterator {
  imap_items : list (result (list B));
  imap_index : nat;
  imap_unsorted : gmap nat (result (list B))
}.

Definition IMapIterator_init : IMapIterator :=
  {| imap_items := []; imap_index := 0%nat; imap_unsorted := ∅ |}.

(** The loop [while self._index in self._unsorted: ...] of [_set].  Every
    round removes an entry of [_unsorted], so its size bounds the rounds. *)
Fixpoint flush_unsorted (bound : nat) (it : IMapIterator) : IMapIterator :=
  match bound with
  | O => it
  | S bound' =>
      match imap_unsorted it !! imap_index it with
      | Some obj =>
          flush_unsorted bound'
            {| imap_items := imap_items it ++ [obj];
               imap_index := S (imap_index it);
               imap_unsorted := delete (imap_index it) (imap_unsorted it) |}
      | None => it
      end
  end.

(** [IMapIterator._set(i, obj)]: the result of task [i] arrives. *)
Definition set_result (i : nat) (obj : result (list B)) (it : IMapIterator) : IMapIterator :=
  if decide (imap_index it = i)
  then flush_unsorted (size (imap_unsorted it))
         {| imap_items := imap_items it ++ [obj];
            imap_index := S (imap_index it);
            imap_unsorted := imap_unsorted it |}
  else {| imap_items := imap_items it;
          imap_index := imap_index it;
          imap_unsorted := <[i := obj]> (imap_unsorted it) |}.

(** A task finishes: the worker has run the chunk, its result arrives. *)
Definition finish_task (st : IMapIterator * St) (t : nat * list A) : IMapIterator * St :=
  let '(r, s') := mapstar t.2 st.2 in
  (set_result t.1 r st.1, s').

(** [list(...)] over the iterator: the items of the chunks in turn, up to
    the first chunk that holds an exception, which is raised. *)
Fixpoint drain (items : list (result (list B))) : result (list B) :=
  match items with
  | [] => Ok []
  | Ok ys :: items' => zs ← drain items'; Ok (ys ++ zs)
  | Raise e :: _ => Raise e
  end.

(** [list(pool.imap(func, iterable, chunksize))].  With [chunksize = 1] the
    library skips the chunking; the one-element chunks here give the same
    results. *)
Definition imap (sched : list nat) (iterable : list A) (chunksize : nat) (s : St)
    : result (list B) * St :=
  if decide (chunksize < 1)%nat
  then (Raise (ValueError "Chunksize must be 1+"), s)
  else
    let chunks := get_tasks chunksize iterable in
    let tasks := zip (seq 0 (length chunks)) chunks in
    let '(it, s') :=
      fold_left finish_task (arrival_order sched tasks) (IMapIterator_init, s) in
    (drain (imap_items it), s').

End Imap.

(** A task function without effects. *)
Definition pure_task {A B} (f : A → result B) : A → unit → result B * unit :=
  fun x u => (f x, u).

End Pool.

(** ** The program *)

(** A file on disk: the frame it was written from, by one of
    [to_csv], [to_parquet] and [to_pickle]. *)
Inductive file : Type :=
| CsvFile (df : Pandas.DataFrame)
| ParquetFile (df : Pandas.DataFrame)
| PickleFile (df : Pandas.DataFrame).

Definition file_frame (f : file) : Pandas.DataFrame :=
  match f with
  | CsvFile df | ParquetFile df | PickleFile df => df
  end.

(** [pathlib.Path] on a POSIX system, as far as the program uses it: a
    path is a root and its parts. *)
Module Path.

Record t : Type := mk {
  root : string;
  parts : list string
}.

(** [s.split("/")] *)
Fixpoint split (s : string) : list string :=
  match s with
  | EmptyString => [""]
  | String c s' =>
      if decide (c = "/"%char) then "" :: split s'
      else match split s' with
           | [] => [String c ""]
           | part :: rest => String c part :: rest
           end
  end.

(** [posixpath.splitroot]: the root is ["/"] for a path that starts with
    separators, ["//"] when it starts with exactly two, and empty for a
    relative path. *)
Definition splitroot (s : string) : string * string :=
  match s with
  | String c1 s1 =>
      if decide (c1 = "/"%char)
      then match s1 with
           | String c2 s2 =>
               if decide (c2 = "/"%char)
               then match s2 with
                    | String c3 _ =>
                        if decide (c3 = "/"%char) then ("/", s1) else ("//", s2)
                    | EmptyString => ("//", s2)
                    end
               else ("/", s1)
           | EmptyString => ("/", s1)
           end
      else ("", s)
  | EmptyString => ("", s)
  end.

(** [Path(s)]: the parts are the pieces between separators, the empty ones
    and ["."] left out. *)
Definition new (s : string) : t :=
  let '(r, rel) := splitroot s in
  {| root := r; parts := filter (fun x => x ≠ "" ∧ x ≠ ".") (split rel) |}.

(** [p / key]: a [key] with a root replaces [p]. *)
Definition joinpath (p : t) (key : string) : t :=
  let q := new key in
  if decide (root q = "") then {| root := root p; parts := parts p ++ parts q |}
  else q.

(** ["/".join(parts)] *)
Fixpoint join_parts (ps : list string) : string :=
  match ps with
  | [] => ""
  | part :: ps' =>
      match ps' with
      | [] => part
      | _ :: _ => part +:+ "/" +:+ join_parts ps'
      end
  end.

(** [str(p)] *)
Definition str (p : t) : string :=
  if decide (root p = "" ∧ parts p = []) then "."
  else root p +:+ join_parts (parts p).

End Path.

(** [output_folder / name], as the string that reaches the writer. *)
Definition path_join (output_folder : Path.t) (name : string) : string :=
  Path.str (Path.joinpath output_folder name).

(** A bag as the reader shows it: [get_all_topics_and_types()], as pairs of
    [name] and [type], and the messages [read_next()] returns, in storage
    order, as triples of topic, serialized data and time stamp. *)
Record bag : Type := mkBag {
  all_topics_and_types : list (string * string);
  messages : list (string * list byte * Z)
}.

(** What a run does to its surroundings: the directories it made, the bags
    it opened, the number of messages it read, the topic names it looked up
    in the bag, and the files, each under its path as [pathlib] spells it,
    which is how a path reaches the writers.  The directories and the bags
    are logged as they were typed. *)
Record world : Type := mkWorld {
  made_dirs : list string;
  opened : list (string * string);
  consumed : nat;
  lookups : list string;
  files : gmap string file
}.

(** The command line after [argparse] has split it: the two positional
    arguments and the value of each option that was given. *)
Record argv : Type := mkArgv {
  arg_input : string;
  arg_output : string;
  opt_s : option string;
  opt_format : option string;
  opt_cores : option string
}.

(** [args] *)
Record namespace : Type := mkNamespace {
  input : string;
  output : string;
  s : string;
  format : string;
  cores : Pool.pyarg
}.

(** The dictionary [save_to_file] receives. *)
Record save_data : Type := mkSaveData {
  topic_name : string;
  parsed_messages : list (list (string * value));
  message_stamps : list Z
}.

Section Program.

(** The ROS 2 libraries: [get_message] finds the class of a type name,
    [deserialize_message] builds a message from bytes, and
    [message_to_ordereddict] converts it. *)
Context {msg_class msg : Type}.
Variable get_message : string → result msg_class.
Variable deserialize_message : list byte → msg_class → result msg.
Variable message_to_ordereddict : msg → list (string * value).

(** numpy's [argsort] under the default [kind]. *)
Variable argsort : list Z → list nat.

(** [cpu_count()] *)
Variable cpu_count : Z.

(** [reader.open]: the bag at a path under a storage implementation. *)
Variable open_bag : string → string → result bag.

(** Lines 16-27. *)
Definition parse_data (message_type : msg_class) (data : list byte)
    : result (list (string * value)) :=
  m ← deserialize_message data message_type;
  Ok (message_to_ordereddict m).

(** Lines 45-49: the frame that is written. *)
Definition df_joined (data : save_data) : result Pandas.DataFrame :=
  let df_messages := Pandas.json_normalize (parsed_messages data) in
  let df_stamps := Pandas.of_column (message_stamps data) "timestamp" in
  joined ← Pandas.join df_stamps df_messages;
  Pandas.sort_values argsort "timestamp" joined.

(** Lines 30-59.  The function returns [None]; what it leaves are the files. *)
Definition save_to_file (file_format : string) (output_folder : Path.t)
    (data : save_data) (fs : gmap string file) : result (gmap string file) :=
  df ← df_joined data;
  name ← file_name (topic_name data);
  if decide (file_format = "csv")
  then Ok (<[path_join output_folder (name +:+ ".csv") := CsvFile df]> fs)
  else if decide (file_format = "parquet")
  then Ok (<[path_join output_folder (name +:+ ".parquet") := ParquetFile df]> fs)
  else if decide (file_format = "pickle")
  then Ok (<[path_join output_folder (name +:+ ".pkl") := PickleFile df]> fs)
  else Ok fs.

(** Lines 63-97: an option outside its [choices] ends the run with status 2;
    [--cores] has no [type], so a value from the command line stays a string. *)
Definition parse_args (a : argv) : result namespace :=
  let s_ := default "mcap" (opt_s a) in
  let format_ := default "csv" (opt_format a) in
  if decide (s_ ∈ ["sqlite3"; "mcap"])
  then
    if decide (format_ ∈ ["csv"; "parquet"; "pickle"])
    then Ok {| input := arg_input a;
               output := arg_output a;
               s := s_;
               format := format_;
               cores := match opt_cores a with
                        | Some c => Pool.PyStr c
                        | None => Pool.PyInt cpu_count
                        end |}
    else Raise (SystemExit 2)
  else Raise (SystemExit 2).

(** Lines 109-113. *)
Fixpoint topic_type_from_name (topics_and_types : list (string * string))
    (topic_name : string) : result string :=
  match topics_and_types with
  | [] => Raise (ValueError ("Topic '" +:+ topic_name +:+ "' was not found in the bag"))
  | (name, type) :: rest =>
      if decide (name = topic_name) then Ok type
      else topic_type_from_name rest topic_name
  end.

(** An entry of [raw_message_data]. *)
Record channel : Type := mkChannel {
  message_type : msg_class;
  raw_data : list (list byte)
}.

(** The two dictionaries of lines 115-116. *)
Record collected : Type := mkCollected {
  raw_message_data : list (string * channel);
  stamps : list (string * list Z)
}.

Definition log_lookup (topic : string) (w : world) : world :=
  {| made_dirs := made_dirs w; opened := opened w; consumed := consumed w;
     lookups := lookups w ++ [topic]; files := files w |}.

Definition log_read (w : world) : world :=
  {| made_dirs := made_dirs w; opened := opened w; consumed := S (consumed w);
     lookups := lookups w; files := files w |}.

(** Lines 122-132, one round of the loop on the message [read_next()]
    returned. *)
Definition read_one (b : bag) (m : string * list byte * Z) (st : collected)
    (w : world) : result collected * world :=
  let '(topic, data, timestamp) := m in
  let w := log_read w in
  let '(r, w) :=
    if Dict.contains topic (raw_message_data st)
    then (Ok (raw_message_data st), w)
    else
      (cls ← (type ← topic_type_from_name (all_topics_and_types b) topic;
              get_message type);
       Ok (Dict.set topic {| message_type := cls; raw_data := [] |}
             (raw_message_data st)),
       log_lookup topic w) in
  (raw ← r;
   let stamps_ :=
     if Dict.contains topic (stamps st) then stamps st
     else Dict.set topic [] (stamps st) in
   ch ← Dict.getitem topic raw;
   let raw' :=
     Dict.set topic {| message_type := message_type ch;
                       raw_data := raw_data ch ++ [data] |} raw in
   ts ← Dict.getitem topic stamps_;
   Ok {| raw_message_data := raw';
         stamps := Dict.set topic (ts ++ [timestamp]) stamps_ |},
   w).

(** Lines 121-134: the loop. *)
Fixpoint read_all (b : bag) (ms : list (string * list byte * Z)) (st : collected)
    (w : world) : result collected * world :=
  match ms with
  | [] => (Ok st, w)
  | m :: ms' =>
      match read_one b m st w with
      | (Ok st', w') => read_all b ms' st' w'
      | (Raise e, w') => (Raise e, w')
      end
  end.

Definition collected_init : collected :=
  {| raw_message_data := []; stamps := [] |}.

(** Lines 139-152, for the topics [topics] that are left: a pool per topic,
    the messages of the topic through [imap] in chunks of 500. *)
Fixpoint parse_topics (n_cores : Pool.pyarg) (sched : string → list nat)
    (raw : list (string * channel)) (topics : list string)
    (parsed : list (string * list (list (string * value))))
    : result (list (string * list (list (string * value)))) :=
  match topics with
  | [] => Ok parsed
  | topic :: topics' =>
      _ ← Pool.new n_cores;
      raw_ch ← Dict.getitem topic raw;
      type_ch ← Dict.getitem topic raw;
      ms ← (Pool.imap (Pool.pure_task (parse_data (message_type type_ch)))
              (sched topic) (raw_data raw_ch) 500 ()).1;
      parse_topics n_cores sched raw topics' (Dict.set topic ms parsed)
  end.

(** Lines 155-162. *)
Definition topic_save_data (parsed : list (string * list (list (string * value))))
    (stamps_ : list (string * list Z)) : result (list save_data) :=
  map_result
    (fun topic =>
       ms ← Dict.getitem topic parsed;
       ts ← Dict.getitem topic stamps_;
       Ok {| topic_name := topic; parsed_messages := ms; message_stamps := ts |})
    (Dict.keys parsed).

(** Lines 163-172: the pool that writes.  The files are what the workers
    share; a task that fails leaves them as they are. *)
Definition save_task (file_format : string) (output_folder : Path.t)
    (data : save_data) (fs : gmap string file)
    : result unit * gmap string file :=
  match save_to_file file_format output_folder data fs with
  | Ok fs' => (Ok (), fs')
  | Raise e => (Raise e, fs)
  end.

Definition with_files (fs : gmap string file) (w : world) : world :=
  {| made_dirs := made_dirs w; opened := opened w; consumed := consumed w;
     lookups := lookups w; files := fs |}.

(** Lines 62-172.  [parse_sched] and [save_sched] are the schedules of the
    pools.  The output folder goes to [save_to_file] as [Path(args.output)]
    (line 94).  Failures of the operating system (a directory that cannot
    be made, a disk that is full) are left out. *)
Definition main (parse_sched : string → list nat) (save_sched : list nat)
    (a : argv) (w : world) : result unit * world :=
  match parse_args a with
  | Raise e => (Raise e, w)
  | Ok args =>
      let w :=
        {| made_dirs := made_dirs w ++ [output args]; opened := opened w;
           consumed := consumed w; lookups := lookups w; files := files w |} in
      match open_bag (input args) (s args) with
      | Raise e => (Raise e, w)
      | Ok b =>
          let w :=
            {| made_dirs := made_dirs w;
               opened := opened w ++ [(input args, s args)];
               consumed := consumed w; lookups := lookups w; files := files w |} in
          match read_all b (messages b) collected_init w with
          | (Raise e, w) => (Raise e, w)
          | (Ok st, w) =>
              match
                (parsed ← parse_topics (cores args) parse_sched
                            (raw_message_data st)
                            (Dict.keys (raw_message_data st)) [];
                 tasks ← topic_save_data parsed (stamps st);
                 _ ← Pool.new (cores args);
                 Ok tasks)
              with
              | Raise e => (Raise e, w)
              | Ok tasks =>
                  let '(r, fs) :=
                    Pool.imap (save_task (format args) (Path.new (output args)))
                      save_sched tasks 1 (files w) in
                  (_ ← r; Ok (), with_files fs w)
              end
          end
      end
  end.

End Program.

(** ** The vocabulary of the properties *)

(** The base name as the specification words it: one leading separator
    stripped if present, every remaining separator replaced by an
    underscore. *)
Definition spec_file_name (topic_name : string) : string :=
  Str.replace "/" "_"
    (match topic_name with
     | String c rest => if decide (c = "/"%char) then rest else topic_name
     | EmptyString => topic_name
     end).

(** The keys at the positions [idx]. *)
Definition keys_at (ks : list Z) (idx : list nat) : list Z :=
  (fun i => default 0 (ks !! i)) <$> idx.

(** What every sorting routine gives, whatever its [kind]: the positions
    [0 .. n-1] in an order in which the keys do not decrease. *)
Definition sorts (argsort : list Z → list nat) : Prop :=
  ∀ ks, argsort ks ≡ₚ seq 0 (length ks) ∧ Sorted Z.le (keys_at ks (argsort ks)).

(** Two routines that sort, neither of them numpy's: among equal keys the
    first puts the earlier position first, the second the later one. *)
Definition key_then_position (a b : nat * Z) : Prop :=
  a.2 < b.2 ∨ (a.2 = b.2 ∧ (a.1 ≤ b.1)%nat).

Definition key_then_later_position (a b : nat * Z) : Prop :=
  a.2 < b.2 ∨ (a.2 = b.2 ∧ (b.1 ≤ a.1)%nat).

#[global] Instance key_then_position_dec : RelDecision key_then_position.
Proof. intros a b. unfold key_then_position. apply _. Defined.

#[global] Instance key_then_later_position_dec : RelDecision key_then_later_position.
Proof. intros a b. unfold key_then_later_position. apply _. Defined.

Definition argsort_by (R : relation (nat * Z)) `{!RelDecision R} (ks : list Z) : list nat :=
  (merge_sort R (zip (seq 0 (length ks)) ks)).*1.

Definition argsort_stable : list Z → list nat := argsort_by key_then_position.

Definition argsort_reversing : list Z → list nat := argsort_by key_then_later_position.

(** The two sequences of a topic after the collection, empty for a topic that
    was not observed. *)
Definition channel_raw {msg_class} (st : @collected msg_class) (topic : string)
    : list (list byte) :=
  default [] (raw_data <$> Dict.get topic (raw_message_data st)).

Definition channel_stamps {msg_class} (st : @collected msg_class) (topic : string)
    : list Z :=
  default [] (Dict.get topic (stamps st)).


(** The messages of one topic, in storage order. *)
Definition on_topic (topic : string) (ms : list (string * list byte * Z))
    : list (string * list byte * Z) :=
  filter (fun m => m.1.1 = topic) ms.

(** The invariant of the iterator behind [imap], against the map [m] of the
    results that have arrived so far: the items are the results up to the
    next task to hand out, and the results ahead of it wait in [_unsorted].
    Inside [_set], before the loop has run, the result of the next task may
    be among those that wait. *)
Definition iterator_flushing {B} (it : @Pool.IMapIterator B)
    (m : gmap nat (result (list B))) : Prop :=
  length (Pool.imap_items it) = Pool.imap_index it
  ∧ (∀ j, (j < Pool.imap_index it)%nat →
          is_Some (m !! j) ∧ Pool.imap_items it !! j = m !! j)
  ∧ (∀ j, Pool.imap_unsorted it !! j
          = if decide (Pool.imap_index it ≤ j)%nat then m !! j else None).

Definition iterator_ok {B} (it : @Pool.IMapIterator B)
    (m : gmap nat (result (list B))) : Prop :=
  iterator_flushing it m ∧ m !! Pool.imap_index it = None.

(** What the tasks return and what they leave behind when they finish in the
    order [tasks]. *)
Fixpoint run_tasks {A B St} (func : A → St → result B * St)
    (tasks : list (nat * list A)) (s : St) : list (nat * result (list B)) * St :=
  match tasks with
  | [] => ([], s)
  | t :: tasks' =>
      let '(r, s') := Pool.mapstar func t.2 s in
      let '(rs, s'') := run_tasks func tasks' s' in
      ((t.1, r) :: rs, s'')
  end.

(** The schema of a decoded message: which fields it has, in order, and
    which of them are messages themselves. *)
#[warnings="-register-all"]
Inductive schema : Type :=
| Field
| Message (fields : list (string * schema)).

(** The schema a decoded value shows. *)
Fixpoint shape (v : value) : schema :=
  match v with
  | VDict d =>
      Message
        ((fix fields (d : list (string * value)) : list (string * schema) :=
            match d with
            | [] => []
            | (k, v') :: d' => (k, shape v') :: fields d'
            end) d)
  | _ => Field
  end.

(** The leaf fields of a schema, each named by the path to it, the names on
    the path joined by dots. *)
Fixpoint leaves (path : string) (sc : schema) : list string :=
  match sc with
  | Field => [path]
  | Message fs =>
      (fix fields (fs : list (string * schema)) : list string :=
         match fs with
         | [] => []
         | (k, sc') :: fs' => leaves (Pandas.new_key path k) sc' ++ fields fs'
         end) fs
  end.

(** The stamp of a row of the joined frame, whose first column holds it. *)
Definition row_stamp (r : list Pandas.cell) : option Z :=
  match r with
  | Pandas.Val (VInt z) :: _ => Some z
  | _ => None
  end.

(** The rows [out] keep the order of the rows [orig] among equal stamps. *)
Definition stable_by_stamp (orig out : list (list Pandas.cell)) : Prop :=
  ∀ k, filter (fun r => row_stamp r = Some k) out
       = filter (fun r => row_stamp r = Some k) orig.

(** The extension [save_to_file] gives the file of each format. *)
Definition extension (file_format : string) : option string :=
  if decide (file_format = "csv") then Some "csv"
  else if decide (file_format = "parquet") then Some "parquet"
  else if decide (file_format = "pickle") then Some "pkl"
  else None.

(** What [save_to_file] returns or raises; the files it finds play no part
    in it. *)
Definition save_outcome (argsort : list Z → list nat) (data : save_data)
    : result unit :=
  _ ← df_joined argsort data; _ ← file_name (topic_name data); Ok ().


(** The surroundings before a run: nothing made, opened, read or written. *)
Definition world_init : world :=
  {| made_dirs := []; opened := []; consumed := 0; lookups := []; files := ∅ |}.

(** Lines 128-129 and 132, on the dictionary of the stamps alone. *)
Definition append_stamp (topic : string) (t : Z)
    (stamps_ : list (string * list Z)) : list (string * list Z) :=
  Dict.set topic (default [] (Dict.get topic stamps_) ++ [t])
    (if Dict.contains topic stamps_ then stamps_ else Dict.set topic [] stamps_).

(** The distinct elements of a list, each at the place of its first
    occurrence. *)
Fixpoint first_seen (ts : list string) : list string :=
  match ts with
  | [] => []
  | t :: ts' => t :: filter (fun x => x ≠ t) (first_seen ts')
  end.

(** A bag with two topics and the arguments of a run with every option at
    its default, for the examples; [example_main] is [main] on a machine
    with four cores, with the sorting routine that keeps ties in order and
    a reader that opens [b]. *)
Definition example_bag : bag :=
  {| all_topics_and_types :=
       [("/odom", "nav_msgs/msg/Odometry"); ("/imu", "sensor_msgs/msg/Imu")];
     messages := [("/odom", [x00], 30); ("/imu", [], 5);
                  ("/odom", [x00; x01], 10); ("/odom", [], 20)] |}.

Definition example_argv : argv :=
  {| arg_input := "bag"; arg_output := "out"; opt_s := None;
     opt_format := None; opt_cores := None |}.

Definition example_args : namespace :=
  {| input := "bag"; output := "out"; s := "mcap"; format := "csv";
     cores := Pool.PyInt 4 |}.

(** The same with another output folder. *)
Definition example_argv_to (output_folder : string) : argv :=
  {| arg_input := "bag"; arg_output := output_folder; opt_s := None;
     opt_format := None; opt_cores := None |}.

Definition example_args_to (output_folder : string) : namespace :=
  {| input := "bag"; output := output_folder; s := "mcap"; format := "csv";
     cores := Pool.PyInt 4 |}.

Definition example_main (get_message : string → result string)
    (deserialize_message : list byte → string → result (list byte))
    (message_to_ordereddict : list byte → list (string * value)) (b : bag)
    : (string → list nat) → list nat → argv → world → result unit * world :=
  main get_message deserialize_message message_to_ordereddict argsort_stable 4
    (fun _ _ => Ok b).

(** The dictionary of an example message: the number of its bytes. *)
Definition example_dict (m : list byte) : list (string * value) :=
  [("size", VInt (Z.of_nat (length m)))].

(** A world in which the output folder holds a file already. *)
Definition example_world : world :=
  {| made_dirs := []; opened := []; consumed := 0; lookups := [];
     files := {[ "out/notes.txt" :=
                   CsvFile {| Pandas.index := []; Pandas.columns := ["note"];
                              Pandas.rows := [] |} ]} |}.
(* ===================================================================== *)
(** * Part II.  The properties *)
(* ===================================================================== *)

(** ** The file name *)

Example file_name_abs : file_name "/a/b/c" = Ok "a_b_c".
Proof. reflexivity. Qed.

Example file_name_rel : file_name "a/b" = Ok "a_b".
Proof. reflexivity. Qed.

Example file_name_root : file_name "/" = Ok "".
Proof. reflexivity. Qed.

Lemma lstrip_no_lead (c a : ascii) (t : string) :
  a ≠ c → Str.lstrip c (String a t) = String a t.
Proof. intros Hne. simpl. by rewrite decide_False. Qed.

Lemma lstrip_length (c : ascii) (t : string) :
  (String.length (Str.lstrip c t) ≤ String.length t)%nat.
Proof.
  induction t as [|a t IH]; simpl; [lia|].
  destruct (decide (a = c)); simpl; lia.
Qed.

Lemma replace_length (c d : ascii) (t : string) :
  String.length (Str.replace c d t) = String.length t.
Proof. induction t as [|a t IH]; simpl; congruence. Qed.

Lemma replace_contains (c d : ascii) (t : string) :
  d ≠ c → Str.contains c (Str.replace c d t) = false.
Proof.
  intros Hne. induction t as [|a t IH]; simpl; [done|].
  rewrite IH, orb_false_r.
  destruct (decide (a = c)); by rewrite bool_decide_eq_false.
Qed.

(** Whatever the first character, the base name is the topic name without
    its leading separators, with underscores for the separators left. *)
Lemma file_name_nonempty (c : ascii) (t : string) :
  file_name (String c t)
  = Ok (Str.replace "/" "_" (Str.lstrip "/" (String c t))).
Proof.
  unfold file_name. simpl.
  destruct (decide (c = "/"%char)) as [->|Hne].
  - by rewrite decide_False by (intros H; by apply H).
  - by rewrite decide_True by done.
Qed.

(** C2, as stated, fails: the code strips every leading separator, so a
    second one is stripped too. *)
Lemma file_name_second_separator_stripped :
  file_name "//a/b" = Ok "a_b" ∧ spec_file_name "//a/b" = "_a_b".
Proof. split; reflexivity. Qed.

(** C2, amended: for every non-empty topic name the base name is the topic
    name with all its leading separators stripped and every remaining
    separator replaced by an underscore; no separator is left in it; and it
    is the name of the specification (one separator stripped) exactly when
    the topic name does not start with two separators. *)
Theorem file_name_strips_leading_separators (c : ascii) (t : string) :
  file_name (String c t)
  = Ok (Str.replace "/" "_" (Str.lstrip "/" (String c t)))
  ∧ (∀ n, file_name (String c t) = Ok n → Str.contains "/" n = false)
  ∧ (file_name (String c t) = Ok (spec_file_name (String c t))
     ↔ ¬ (∃ t', String c t = String "/" (String "/" t'))).
Proof.
  split; [apply file_name_nonempty|]. split.
  - intros n. rewrite file_name_nonempty. intros [= <-].
    by apply replace_contains.
  - rewrite file_name_nonempty. unfold spec_file_name.
    destruct (decide (c = "/"%char)) as [->|Hne].
    + simpl Str.lstrip.
      destruct t as [|a t].
      * simpl. split; [intros _ [t' [=]] | done].
      * destruct (decide (a = "/"%char)) as [->|Hne].
        -- split; [|intros H; exfalso; apply H; by eexists].
           intros [= H]. exfalso.
           apply (f_equal String.length) in H.
           change (Str.lstrip "/" (String "/" t)) with (Str.lstrip "/" t) in H.
           rewrite ?replace_length in H. simpl in H. rewrite ?replace_length in H.
           pose proof (lstrip_length "/" t). lia.
        -- rewrite lstrip_no_lead by done.
           split; [intros _ [t' [= ? ?]]; by subst | done].
    + rewrite lstrip_no_lead by done.
      split; [intros _ [t' [= ? ?]]; by subst | done].
Qed.

Lemma file_name_is_Ok (t : string) : is_Ok (file_name t) ↔ t ≠ "".
Proof.
  destruct t as [|c t].
  - split; [intros [n [=]] | done].
  - split; [done|]. intros _. rewrite file_name_nonempty. by eexists.
Qed.

(** C10: the index access makes the derivation defined exactly on the
    non-empty topic names; on the empty one it raises [IndexError], and so
    does every call of [save_to_file] whose frame could be built. *)
Theorem file_name_defined_iff_nonempty (t : string) :
  (is_Ok (file_name t) ↔ t ≠ "")
  ∧ (t = "" → file_name t = Raise IndexError)
  ∧ (∀ argsort fmt out data fs,
       topic_name data = t → t = "" →
       save_to_file argsort fmt out data fs
       = (_ ← df_joined argsort data; Raise IndexError)).
Proof.
  split; [|split].
  - apply file_name_is_Ok.
  - by intros ->.
  - intros argsort fmt out data fs Ht ->. unfold save_to_file.
    rewrite Ht. by destruct (df_joined argsort data).
Qed.

(** ** Sorting routines *)

Lemma keys_at_zip (ks : list Z) (l : list (nat * Z)) :
  l ⊆ zip (seq 0 (length ks)) ks → keys_at ks (l.*1) = l.*2.
Proof.
  intros Hl. unfold keys_at. rewrite <-list_fmap_compose.
  apply Forall_fmap_ext_1, Forall_forall. intros [i k] Hin. simpl.
  apply Hl, list_elem_of_lookup in Hin as [j Hj].
  apply lookup_zip_with_Some in Hj as (i' & k' & [= <- <-] & Hi & Hk).
  apply lookup_seq in Hi as [-> _]. simpl. by rewrite Hk.
Qed.

Lemma sorts_argsort_by (R : relation (nat * Z)) `{!RelDecision R} :
  Total R → (∀ a b, R a b → (a.2 ≤ b.2)%Z) → sorts (argsort_by R).
Proof.
  intros Htot Hle ks. unfold argsort_by.
  set (l := zip (seq 0 (length ks)) ks).
  assert (Hperm : merge_sort R l ≡ₚ l) by apply merge_sort_Permutation.
  split.
  - rewrite Hperm. unfold l. by rewrite fst_zip by (rewrite length_seq; lia).
  - rewrite keys_at_zip.
    + eapply (Sorted_fmap snd R); [|by apply Sorted_merge_sort].
      intros a b. apply Hle.
    + intros x Hx. by rewrite Hperm in Hx.
Qed.

Lemma sorts_argsort_stable : sorts argsort_stable.
Proof.
  apply sorts_argsort_by.
  - intros [i a] [j b]. unfold key_then_position. simpl. lia.
  - intros [i a] [j b]. unfold key_then_position. simpl. lia.
Qed.

Lemma sorts_argsort_reversing : sorts argsort_reversing.
Proof.
  apply sorts_argsort_by.
  - intros [i a] [j b]. unfold key_then_later_position. simpl. lia.
  - intros [i a] [j b]. unfold key_then_later_position. simpl. lia.
Qed.

Example argsort_stable_ties : argsort_stable [30; 10; 20; 10] = [1; 3; 2; 0]%nat.
Proof. reflexivity. Qed.

Example argsort_reversing_ties : argsort_reversing [30; 10; 20; 10] = [3; 1; 2; 0]%nat.
Proof. reflexivity. Qed.

(** numpy's routine keeps two equal keys as they are, and sorts. *)
Example numpy_argsort_two_equal : Numpy.argsort [5; 5] = [0; 1]%nat.
Proof. reflexivity. Qed.

Example numpy_argsort_sorted :
  Numpy.argsort [30; 10; 20; 10] = [1; 3; 2; 0]%nat
  ∧ keys_at [30; 10; 20; 10] (Numpy.argsort [30; 10; 20; 10]) = [10; 10; 20; 30].
Proof. split; reflexivity. Qed.

(** ** Dictionaries *)

Section DictFacts.
Context {V : Type}.
Implicit Types (d : list (string * V)) (k : string) (v : V).

Lemma dict_get_set k k' v d :
  Dict.get k (Dict.set k' v d) = if decide (k' = k) then Some v else Dict.get k d.
Proof.
  induction d as [|[k0 v0] d IH]; simpl.
  - done.
  - destruct (decide (k0 = k')) as [->|Hne]; simpl.
    + by destruct (decide (k' = k)).
    + rewrite IH. destruct (decide (k0 = k)) as [->|]; [|done].
      by rewrite decide_False by congruence.
Qed.

Lemma dict_get_set_eq k v d : Dict.get k (Dict.set k v d) = Some v.
Proof. rewrite dict_get_set. by rewrite decide_True. Qed.

Lemma dict_get_set_ne k k' v d :
  k' ≠ k → Dict.get k (Dict.set k' v d) = Dict.get k d.
Proof. intros. rewrite dict_get_set. by rewrite decide_False. Qed.

Lemma dict_getitem_Some k v d : Dict.get k d = Some v → Dict.getitem k d = Ok v.
Proof. unfold Dict.getitem. by intros ->. Qed.

Lemma dict_get_Some_keys k d : is_Some (Dict.get k d) ↔ k ∈ Dict.keys d.
Proof.
  unfold Dict.keys. induction d as [|[k0 v0] d IH]; simpl.
  - split; [by intros [? [=]] | by intros ?%elem_of_nil].
  - rewrite elem_of_cons. destruct (decide (k0 = k)) as [->|Hne].
    + split; [by left | by eexists].
    + rewrite IH. split; [by right | by intros [?|?]].
Qed.

Lemma dict_contains_keys k d : Dict.contains k d = true ↔ k ∈ Dict.keys d.
Proof.
  rewrite <-dict_get_Some_keys. unfold Dict.contains.
  destruct (Dict.get k d).
  - split; [by eexists | done].
  - split; [done | by intros [? [=]]].
Qed.

Lemma dict_contains_set k k' v d :
  Dict.contains k (Dict.set k' v d) = bool_decide (k' = k) || Dict.contains k d.
Proof.
  unfold Dict.contains. rewrite dict_get_set.
  destruct (decide (k' = k)); [by rewrite bool_decide_eq_true_2|].
  by rewrite bool_decide_eq_false_2.
Qed.

Lemma dict_keys_set k v d :
  Dict.keys (Dict.set k v d)
  = if decide (k ∈ Dict.keys d) then Dict.keys d else Dict.keys d ++ [k].
Proof.
  unfold Dict.keys. induction d as [|[k0 v0] d IH].
  - case_decide as Hin; [by apply elem_of_nil in Hin | done].
  - cbn [Dict.set]. destruct (decide (k0 = k)) as [->|Hne].
    + rewrite !fmap_cons. cbn [fst].
      by rewrite decide_True by apply list_elem_of_here.
    + rewrite !fmap_cons, IH. cbn [fst].
      destruct (decide (k ∈ d.*1)) as [Hin|Hnin].
      * by rewrite decide_True by by apply list_elem_of_further.
      * rewrite decide_False; [done|].
        rewrite elem_of_cons. by intros [?|?].
Qed.

Lemma dict_keys_set_NoDup k v d : NoDup (Dict.keys d) → NoDup (Dict.keys (Dict.set k v d)).
Proof.
  intros Hd. rewrite dict_keys_set. case_decide; [done|].
  apply NoDup_app. split; [done|]. split; [|apply NoDup_singleton].
  intros x Hx ->%list_elem_of_singleton. done.
Qed.

End DictFacts.

(** ** The collection *)

Section Collection.
Context {msg_class : Type}.
Variable get_message : string → result msg_class.
Implicit Types (st : @collected msg_class) (w : world) (b : bag).

Lemma append_stamp_get (topic k : string) (t : Z)
    (stamps_ : list (string * list Z)) :
  Dict.get k (append_stamp topic t stamps_)
  = if decide (topic = k)
    then Some (default [] (Dict.get topic stamps_) ++ [t])
    else Dict.get k stamps_.
Proof.
  unfold append_stamp. rewrite dict_get_set. case_decide; [done|].
  destruct (Dict.contains topic stamps_); [done|]. by rewrite dict_get_set_ne.
Qed.

(** One round of the loop, spelled out.  On a known topic nothing can fail;
    on a new one the lookup in the bag and [get_message] can. *)
Lemma read_one_eq b topic data t st w :
  read_one get_message b (topic, data, t) st w
  = match Dict.get topic (raw_message_data st) with
    | Some ch =>
        (Ok {| raw_message_data :=
                 Dict.set topic
                   {| message_type := message_type ch;
                      raw_data := raw_data ch ++ [data] |}
                   (raw_message_data st);
               stamps := append_stamp topic t (stamps st) |},
         log_read w)
    | None =>
        match ty ← topic_type_from_name (all_topics_and_types b) topic;
              get_message ty with
        | Ok cls =>
            (Ok {| raw_message_data :=
                     Dict.set topic
                       {| message_type := cls; raw_data := [] ++ [data] |}
                       (Dict.set topic
                          {| message_type := cls; raw_data := [] |}
                          (raw_message_data st));
                   stamps := append_stamp topic t (stamps st) |},
             log_lookup topic (log_read w))
        | Raise e => (Raise e, log_lookup topic (log_read w))
        end
    end.
Proof.
  assert (Hstamps : ∀ raw' : list (string * @channel msg_class),
    (let stamps_ :=
       if Dict.contains topic (stamps st) then stamps st
       else Dict.set topic [] (stamps st) in
     ts ← Dict.getitem topic stamps_;
     Ok {| raw_message_data := raw';
           stamps := Dict.set topic (ts ++ [t]) stamps_ |})
    = Ok {| raw_message_data := raw';
            stamps := append_stamp topic t (stamps st) |}).
  { intros raw'. unfold append_stamp, Dict.getitem, Dict.contains.
    destruct (Dict.get topic (stamps st)) as [ts|] eqn:Hts; cbn zeta.
    - by rewrite Hts.
    - by rewrite dict_get_set_eq. }
  unfold read_one, Dict.contains.
  destruct (Dict.get topic (raw_message_data st)) as [ch|] eqn:Hch.
  - cbn -[Dict.set Dict.get Dict.getitem Dict.contains].
    rewrite (dict_getitem_Some _ _ _ Hch).
    cbn -[Dict.set Dict.get Dict.getitem Dict.contains].
    by rewrite Hstamps.
  - destruct (topic_type_from_name (all_topics_and_types b) topic) as [ty|e];
      cbn -[Dict.set Dict.get Dict.getitem Dict.contains]; [|done].
    destruct (get_message ty) as [cls|e];
      cbn -[Dict.set Dict.get Dict.getitem Dict.contains]; [|done].
    rewrite (dict_getitem_Some _ _ _ (dict_get_set_eq _ _ _)).
    cbn -[Dict.set Dict.get Dict.getitem Dict.contains].
    by rewrite Hstamps.
Qed.

(** One round of the loop, when it succeeds: the message went to the end of
    both sequences of its topic, nothing else moved, and the topic was looked
    up in the bag only if it was new. *)
Lemma read_one_Ok b topic data t st w st' w' :
  read_one get_message b (topic, data, t) st w = (Ok st', w') →
  channel_raw st' topic = channel_raw st topic ++ [data]
  ∧ channel_stamps st' topic = channel_stamps st topic ++ [t]
  ∧ Dict.contains topic (raw_message_data st') = true
  ∧ Dict.contains topic (stamps st') = true
  ∧ (∀ k, k ≠ topic →
       Dict.get k (raw_message_data st') = Dict.get k (raw_message_data st)
       ∧ Dict.get k (stamps st') = Dict.get k (stamps st))
  ∧ w' = (if Dict.contains topic (raw_message_data st) then log_read w
          else log_lookup topic (log_read w)).
Proof.
  rewrite read_one_eq. unfold channel_raw, channel_stamps, Dict.contains.
  destruct (Dict.get topic (raw_message_data st)) as [ch|] eqn:Hch;
    [|destruct (_ ≫= _) as [cls|e]; [|done]].
  all: intros [= <- <-]; cbn [raw_message_data stamps].
  all: rewrite !dict_get_set_eq, !append_stamp_get, !decide_True by done.
  all: do 4 (split; [done|]); split; [|done].
  all: intros k Hk; rewrite append_stamp_get, decide_False by done.
  all: by rewrite !dict_get_set_ne by done.
Qed.

(** One round of the loop, when it fails: the topic was new, and the
    exception is the one of its lookup in the bag or of [get_message]. *)
Lemma read_one_Raise b topic data t st w e w' :
  read_one get_message b (topic, data, t) st w = (Raise e, w') →
  Dict.contains topic (raw_message_data st) = false
  ∧ (ty ← topic_type_from_name (all_topics_and_types b) topic; get_message ty)
    = Raise e
  ∧ w' = log_lookup topic (log_read w).
Proof.
  rewrite read_one_eq. unfold Dict.contains.
  destruct (Dict.get topic (raw_message_data st)) as [ch|]; [done|].
  destruct (_ ≫= _) as [cls|e']; [done|]. by intros [= <- <-].
Qed.

Lemma topic_type_from_name_absent (tts : list (string * string)) (topic : string) :
  topic ∉ tts.*1 →
  topic_type_from_name tts topic
  = Raise (ValueError ("Topic '" +:+ topic +:+ "' was not found in the bag")).
Proof.
  induction tts as [|[name ty] tts IH]; [done|].
  rewrite fmap_cons, not_elem_of_cons. intros [Hne Hnin]. simpl.
  rewrite decide_False by done. by apply IH.
Qed.

Lemma topic_type_from_name_Ok (tts : list (string * string)) (topic ty : string) :
  topic_type_from_name tts topic = Ok ty → topic ∈ tts.*1.
Proof.
  induction tts as [|[name ty'] tts IH]; [done|]. simpl.
  destruct (decide (name = topic)) as [->|Hne].
  - intros _. apply list_elem_of_here.
  - intros H. apply list_elem_of_further, IH, H.
Qed.



(** The loop over a concatenation. *)
Lemma read_all_app b ms1 ms2 st w :
  read_all get_message b (ms1 ++ ms2) st w
  = match read_all get_message b ms1 st w with
    | (Ok st', w') => read_all get_message b ms2 st' w'
    | (Raise e, w') => (Raise e, w')
    end.
Proof.
  revert st w. induction ms1 as [|m ms1 IH]; intros st w; [done|]. simpl.
  destruct (read_one get_message b m st w) as [[st'|e] w']; [apply IH | done].
Qed.

(** The collection touches neither the directories nor the files. *)
Lemma read_one_world b m st w r w' :
  read_one get_message b m st w = (r, w') →
  files w' = files w ∧ made_dirs w' = made_dirs w ∧ opened w' = opened w
  ∧ consumed w' = S (consumed w).
Proof.
  destruct m as [[topic data] t]. destruct r as [st'|e]; intros H.
  - apply read_one_Ok in H as (_ & _ & _ & _ & _ & ->).
    by destruct (Dict.contains topic (raw_message_data st)).
  - by apply read_one_Raise in H as (_ & _ & ->).
Qed.

Lemma read_all_world b ms st w r w' :
  read_all get_message b ms st w = (r, w') →
  files w' = files w ∧ made_dirs w' = made_dirs w ∧ opened w' = opened w.
Proof.
  revert st w. induction ms as [|m ms IH]; intros st w; simpl.
  - by intros [= <- <-].
  - destruct (read_one get_message b m st w) as [[st1|e] w1] eqn:Hstep.
    + intros Hrest. apply IH in Hrest as (-> & -> & ->).
      by apply read_one_world in Hstep as (-> & -> & -> & _).
    + intros [= <- <-]. by apply read_one_world in Hstep as (-> & -> & -> & _).
Qed.

(** What a successful collection has gathered: for every topic the data and
    the stamps of its messages, in storage order. *)
Lemma read_all_Ok b ms st w st' w' :
  read_all get_message b ms st w = (Ok st', w') →
  (∀ topic,
     channel_raw st' topic = channel_raw st topic ++ (on_topic topic ms).*1.*2
     ∧ channel_stamps st' topic = channel_stamps st topic ++ (on_topic topic ms).*2
     ∧ (Dict.contains topic (raw_message_data st') = true
        ↔ Dict.contains topic (raw_message_data st) = true ∨ on_topic topic ms ≠ []))
  ∧ consumed w' = (consumed w + length ms)%nat.
Proof.
  revert st w. induction ms as [|m ms IH]; intros st w; simpl.
  - intros [= <- <-]. split; [|lia]. intros topic.
    rewrite !app_nil_r. split; [done|]. split; [done|].
    split; [by left | by intros [?|?]].
  - destruct (read_one get_message b m st w) as [[st1|e] w1] eqn:Hstep; [|done].
    intros Hrest. apply IH in Hrest as [Hrest Hcount].
    pose proof (read_one_world _ _ _ _ _ _ Hstep) as (_ & _ & _ & Hc).
    split; [|lia]. intros topic.
    destruct (Hrest topic) as (-> & -> & Hdom). rewrite Hdom. clear Hrest Hdom.
    destruct m as [[topic' data] t].
    apply read_one_Ok in Hstep as (Hraw & Hts & Hc1 & _ & Hother & _).
    unfold on_topic. rewrite filter_cons. cbn [fst].
    destruct (decide (topic' = topic)) as [->|Hne].
    + rewrite Hraw, Hts, Hc1, !fmap_cons, <-!app_assoc. cbn.
      split; [done|]. split; [done|]. split; [intros _; by right | intros _; by left].
    + destruct (Hother topic) as [H1 H2]; [done|].
      unfold channel_raw, channel_stamps, Dict.contains. by rewrite H1, H2.
Qed.

End Collection.

Example collect_two_topics :
  (read_all (msg_class := string) Ok
     {| all_topics_and_types := [("/odom", "nav_msgs/msg/Odometry"); ("/imu", "sensor_msgs/msg/Imu")];
        messages := [] |}
     [("/odom", [], 30); ("/imu", [], 5); ("/odom", [], 10); ("/odom", [], 20)]
     collected_init
     {| made_dirs := []; opened := []; consumed := 0; lookups := []; files := ∅ |}).1
  = Ok {| raw_message_data :=
            [("/odom", {| message_type := "nav_msgs/msg/Odometry"; raw_data := [[]; []; []] |});
             ("/imu", {| message_type := "sensor_msgs/msg/Imu"; raw_data := [[]] |})];
          stamps := [("/odom", [30; 10; 20]); ("/imu", [5])] |}.
Proof. reflexivity. Qed.


(** ** The lookups of the collection *)

Section Lookups.
Context {msg_class : Type}.
Variable get_message : string → result msg_class.
Implicit Types (st : @collected msg_class) (w : world) (b : bag).

(** The topics of [raw_message_data] after a round: a new topic goes last. *)
Lemma read_one_keys b topic data t st w st' w' :
  read_one get_message b (topic, data, t) st w = (Ok st', w') →
  Dict.keys (raw_message_data st')
  = if Dict.contains topic (raw_message_data st)
    then Dict.keys (raw_message_data st)
    else Dict.keys (raw_message_data st) ++ [topic].
Proof.
  rewrite read_one_eq.
  pose proof (dict_contains_keys topic (raw_message_data st)) as Hin.
  unfold Dict.contains in *.
  destruct (Dict.get topic (raw_message_data st)) as [ch|];
    [|destruct (_ ≫= _) as [cls|e]; [|done]].
  all: intros [= <- <-]; cbn [raw_message_data]; rewrite !dict_keys_set.
  - by rewrite decide_True by by apply Hin.
  - rewrite (decide_False (P := topic ∈ Dict.keys (raw_message_data st)))
      by (intros Habs; by apply Hin in Habs).
    rewrite decide_True; [done|].
    apply elem_of_app. right. apply list_elem_of_here.
Qed.

(** A round on a new topic that the bag does not list, or whose type has no
    class, raises. *)
Lemma read_one_new_Raise b topic data t st w e :
  Dict.contains topic (raw_message_data st) = false →
  (ty ← topic_type_from_name (all_topics_and_types b) topic; get_message ty)
  = Raise e →
  read_one get_message b (topic, data, t) st w
  = (Raise e, log_lookup topic (log_read w)).
Proof.
  intros Hraw He. rewrite read_one_eq, He. unfold Dict.contains in Hraw.
  by destruct (Dict.get topic (raw_message_data st)).
Qed.

(** A round on a topic that is known, or that the bag lists with a type
    that has a class, succeeds. *)
Lemma read_one_is_Ok b topic data t st w :
  Dict.contains topic (raw_message_data st) = true
  ∨ is_Ok (ty ← topic_type_from_name (all_topics_and_types b) topic; get_message ty) →
  ∃ st' w', read_one get_message b (topic, data, t) st w = (Ok st', w').
Proof.
  intros Hok.
  destruct (read_one get_message b (topic, data, t) st w) as [[st'|e] w'] eqn:H.
  - by eexists _, _.
  - apply read_one_Raise in H as (Hraw & He & _).
    destruct Hok as [Hok|[cls Hok]]; congruence.
Qed.

Lemma read_all_is_Ok b ms st w :
  (∀ m, m ∈ ms →
     is_Ok (ty ← topic_type_from_name (all_topics_and_types b) m.1.1; get_message ty)) →
  ∃ st' w', read_all get_message b ms st w = (Ok st', w').
Proof.
  revert st w. induction ms as [|[[topic data] t] ms IH]; intros st w Hms.
  - by eexists _, _.
  - destruct (read_one_is_Ok b topic data t st w) as (st1 & w1 & Hstep).
    { right. apply (Hms (topic, data, t)), list_elem_of_here. }
    cbn [read_all]. rewrite Hstep. apply IH.
    intros m Hm. by apply Hms, list_elem_of_further.
Qed.

(** The names looked up in the bag are the topics of [raw_message_data], in
    the order in which they were first seen, so each at most once. *)
Lemma read_all_lookups b ms st w st' w' log :
  read_all get_message b ms st w = (Ok st', w') →
  NoDup (Dict.keys (raw_message_data st)) →
  lookups w = log ++ Dict.keys (raw_message_data st) →
  NoDup (Dict.keys (raw_message_data st'))
  ∧ lookups w' = log ++ Dict.keys (raw_message_data st').
Proof.
  revert st w. induction ms as [|[[topic data] t] ms IH]; intros st w; cbn [read_all].
  - by intros [= <- <-].
  - destruct (read_one get_message b (topic, data, t) st w)
      as [[st1|e] w1] eqn:Hstep; [|by intros [=]].
    intros Hrest Hnd Hlog. apply (IH _ _ Hrest).
    + rewrite (read_one_keys _ _ _ _ _ _ _ _ Hstep).
      destruct (Dict.contains topic (raw_message_data st)) eqn:Hc; [done|].
      apply NoDup_app. split; [done|]. split; [|apply NoDup_singleton].
      intros x Hx ->%list_elem_of_singleton.
      apply dict_contains_keys in Hx. congruence.
    + rewrite (read_one_keys _ _ _ _ _ _ _ _ Hstep).
      apply read_one_Ok in Hstep as (_ & _ & _ & _ & _ & ->).
      destruct (Dict.contains topic (raw_message_data st)); cbn; [done|].
      by rewrite Hlog, app_assoc.
Qed.

End Lookups.

(** ** The run as a whole: what fails before anything is written *)

Section Run.
Context {msg_class msg : Type}.
Variable get_message : string → result msg_class.
Variable deserialize_message : list byte → msg_class → result msg.
Variable message_to_ordereddict : msg → list (string * value).
Variable argsort : list Z → list nat.
Variable cpu_count : Z.
Variable open_bag : string → string → result bag.

Lemma on_topic_nonempty (topic : string) (ms : list (string * list byte * Z)) :
  on_topic topic ms ≠ [] ↔ topic ∈ ms.*1.*1.
Proof.
  unfold on_topic. induction ms as [|[[k d] t] ms IH]; [by rewrite elem_of_nil|].
  rewrite filter_cons, !fmap_cons, elem_of_cons. cbn [fst].
  destruct (decide (k = topic)) as [->|Hne].
  - split; [by left | done].
  - rewrite IH. split; [by right | by intros [?|?]].
Qed.

(** C7: a format outside [csv], [parquet] and [pickle] ends the run in
    [parse_args], with the exit status of a command-line error, before a
    directory is made, before the bag is opened or read, and before any file
    is written: the surroundings are as they were. *)
Theorem unknown_format_rejected (parse_sched : string → list nat)
    (save_sched : list nat) (a : argv) (w : world) :
  default "csv" (opt_format a) ∉ ["csv"; "parquet"; "pickle"] →
  main get_message deserialize_message message_to_ordereddict argsort
    cpu_count open_bag parse_sched save_sched a w
  = (Raise (SystemExit 2), w).
Proof.
  intros Hfmt. unfold main, parse_args.
  destruct (decide (default "mcap" (opt_s a) ∈ ["sqlite3"; "mcap"])); [|done].
  by rewrite decide_False.
Qed.

(** C6: when the collection comes to a message whose topic the bag does not
    list, the run ends there with the [ValueError] of [topic_type_from_name]:
    no file has been written, the messages before it and this one have been
    read, and the names looked up in the bag are the topics seen so far, each
    looked up once, and last the missing one. *)
Theorem unknown_topic_aborts (parse_sched : string → list nat)
    (save_sched : list nat) (a : argv) (w : world) (args : namespace)
    (b : bag) (pre post : list (string * list byte * Z))
    (topic : string) (data : list byte) (t : Z) :
  parse_args cpu_count a = Ok args →
  open_bag (input args) (s args) = Ok b →
  messages b = pre ++ (topic, data, t) :: post →
  (∀ m, m ∈ pre →
     is_Ok (ty ← topic_type_from_name (all_topics_and_types b) m.1.1;
            get_message ty)) →
  topic ∉ (all_topics_and_types b).*1 →
  ∃ w' seen,
    main get_message deserialize_message message_to_ordereddict argsort
      cpu_count open_bag parse_sched save_sched a w
    = (Raise (ValueError ("Topic '" +:+ topic +:+ "' was not found in the bag")), w')
    ∧ files w' = files w
    ∧ consumed w' = (consumed w + length pre + 1)%nat
    ∧ lookups w' = lookups w ++ seen ++ [topic]
    ∧ NoDup (seen ++ [topic])
    ∧ ∀ x, x ∈ seen ↔ x ∈ pre.*1.*1.
Proof.
  intros Hargs Hopen Hms Hpre Habsent. unfold main. rewrite Hargs, Hopen, Hms.
  match goal with
  | |- context [read_all _ _ _ _ ?w'] => set (w0 := w')
  end.
  destruct (read_all_is_Ok get_message b pre collected_init w0 Hpre)
    as (st1 & w1 & Hrun).
  pose proof (read_all_Ok _ _ _ _ _ _ _ Hrun) as [Hshape Hcount].
  destruct (read_all_lookups _ _ _ _ _ _ _ (lookups w) Hrun) as [Hnd Hlog];
    [constructor | by rewrite app_nil_r |].
  pose proof (read_all_world _ _ _ _ _ _ _ Hrun) as (Hfiles & _ & _).
  assert (Hkeys : ∀ x, x ∈ Dict.keys (raw_message_data st1) ↔ x ∈ pre.*1.*1).
  { intros x. rewrite <-dict_contains_keys, <-on_topic_nonempty.
    destruct (Hshape x) as (_ & _ & ->). split; [by intros [?|?] | by right]. }
  assert (Hnew : Dict.contains topic (raw_message_data st1) = false).
  { apply not_true_is_false. rewrite dict_contains_keys, Hkeys.
    intros Hin. apply list_elem_of_fmap in Hin as ([k d] & -> & Hin).
    apply list_elem_of_fmap in Hin as (m & Hm & Hin).
    destruct (Hpre m Hin) as [cls Hcls]. rewrite <-Hm in Hcls. cbn [fst] in Hcls.
    rewrite topic_type_from_name_absent in Hcls by done. done. }
  rewrite read_all_app, Hrun. cbn [read_all].
  rewrite (read_one_new_Raise _ _ _ _ _ _ _
             (ValueError ("Topic '" +:+ topic +:+ "' was not found in the bag")))
    by (by rewrite ?topic_type_from_name_absent).
  exists (log_lookup topic (log_read w1)), (Dict.keys (raw_message_data st1)).
  subst w0. cbn in Hcount, Hlog, Hfiles.
  split; [done|]. split; [done|]. split; [cbn; lia|].
  split; [cbn; by rewrite Hlog, app_assoc|]. split; [|done].
  apply NoDup_app. split; [done|]. split; [|apply NoDup_singleton].
  intros x Hx ->%list_elem_of_singleton.
  apply dict_contains_keys in Hx. congruence.
Qed.

(** Whatever stops the collection, no file has been written by then. *)
Lemma collection_error_writes_nothing (parse_sched : string → list nat)
    (save_sched : list nat) (a : argv) (w : world) (args : namespace)
    (b : bag) (e : exn) (w1 : world) :
  parse_args cpu_count a = Ok args →
  open_bag (input args) (s args) = Ok b →
  read_all get_message b (messages b) collected_init
    {| made_dirs := made_dirs w ++ [output args];
       opened := opened w ++ [(input args, s args)];
       consumed := consumed w; lookups := lookups w; files := files w |}
  = (Raise e, w1) →
  main get_message deserialize_message message_to_ordereddict argsort
    cpu_count open_bag parse_sched save_sched a w
  = (Raise e, w1)
  ∧ files w1 = files w.
Proof.
  intros Hargs Hopen Hrun. unfold main. rewrite Hargs, Hopen. cbn [made_dirs opened consumed lookups files].
  rewrite Hrun. split; [done|].
  by apply read_all_world in Hrun as (-> & _).
Qed.

End Run.

(** ** An unknown format in [save_to_file] *)

(** C9: with a format that is none of [csv], [parquet] and [pickle],
    [save_to_file] does what it does with a format it knows, except that it
    writes nothing: on data that it saves under a known format it returns
    normally and leaves the files as they were, and where it raises, it
    raises what it raises under every format. *)
Theorem save_to_file_unknown_format (argsort : list Z → list nat)
    (file_format known_format : string) (output_folder : Path.t)
    (data : save_data) (fs : gmap string file) :
  file_format ≠ "csv" → file_format ≠ "parquet" → file_format ≠ "pickle" →
  known_format ∈ ["csv"; "parquet"; "pickle"] →
  (is_Ok (save_to_file argsort known_format output_folder data fs) →
   save_to_file argsort file_format output_folder data fs = Ok fs)
  ∧ save_to_file argsort file_format output_folder data fs
    = (_ ← save_to_file argsort known_format output_folder data fs; Ok fs).
Proof.
  intros H1 H2 H3 Hknown.
  assert (Heq : save_to_file argsort file_format output_folder data fs
    = (_ ← save_to_file argsort known_format output_folder data fs; Ok fs)).
  { unfold save_to_file.
    destruct (df_joined argsort data); [|done]. cbn.
    destruct (file_name (topic_name data)); [|done]. cbn.
    rewrite !(decide_False (P := file_format = _)) by done.
    repeat (apply elem_of_cons in Hknown as [->|Hknown]; [done|]).
    by apply elem_of_nil in Hknown. }
  split; [|done]. intros [fs' Hok]. by rewrite Heq, Hok.
Qed.

Lemma save_to_file_unknown_format_witness :
  save_to_file argsort_stable "xml" (Path.new "out")
    {| topic_name := "/odom"; parsed_messages := [[("x", VInt 1)]];
       message_stamps := [30] |} ∅
  = Ok ∅.
Proof.
  apply (save_to_file_unknown_format argsort_stable "xml" "csv").
  - discriminate.
  - discriminate.
  - discriminate.
  - apply list_elem_of_here.
Defined.

(** ** The worker pool *)

Section PoolFacts.
Context {A B St : Type}.
Implicit Types (xs : list A) (it : @Pool.IMapIterator B)
  (m : gmap nat (result (list B))).

(** The chunks are the iterable, cut. *)
Lemma concat_get_tasks_upto (bound size : nat) xs :
  (1 ≤ size)%nat → (length xs ≤ bound)%nat →
  concat (Pool.get_tasks_upto bound size xs) = xs.
Proof.
  intros Hsize. revert xs. induction bound as [|bound IH]; intros xs Hlen.
  - destruct xs; [done | simpl in Hlen; lia].
  - destruct xs as [|x xs]; [done|].
    cbn [Pool.get_tasks_upto concat]. rewrite IH.
    + apply take_drop.
    + rewrite length_drop. simpl in *. lia.
Qed.

Lemma concat_get_tasks (size : nat) xs :
  (1 ≤ size)%nat → concat (Pool.get_tasks size xs) = xs.
Proof. intros. by apply concat_get_tasks_upto. Qed.

(** Every schedule lets every task finish once. *)
Lemma arrival_order_Permutation {T} (sched : list nat) (pending : list T) :
  Pool.arrival_order sched pending ≡ₚ pending.
Proof.
  revert pending. induction sched as [|n sched IH]; intros pending; [done|].
  cbn [Pool.arrival_order].
  destruct (pending !! _) as [t|] eqn:Ht; [|done].
  rewrite IH. symmetry. by apply delete_Permutation.
Qed.

(** The loop of [_set] keeps the invariant and runs to its end. *)
Lemma flush_unsorted_ok (bound : nat) it m :
  iterator_flushing it m →
  (size (Pool.imap_unsorted it) ≤ bound)%nat →
  iterator_ok (Pool.flush_unsorted bound it) m.
Proof.
  revert it. induction bound as [|bound IH]; intros it Hit Hsize.
  - cbn [Pool.flush_unsorted]. split; [done|].
    destruct Hit as (_ & _ & Hun).
    assert (Hempty : Pool.imap_unsorted it = ∅)
      by (apply map_size_empty_iff; lia).
    specialize (Hun (Pool.imap_index it)).
    rewrite Hempty, lookup_empty, decide_True in Hun by lia. done.
  - cbn [Pool.flush_unsorted].
    destruct (Pool.imap_unsorted it !! Pool.imap_index it) as [obj|] eqn:Hobj.
    + destruct Hit as (Hlen & Hitems & Hun). apply IH.
      * pose proof (Hun (Pool.imap_index it)) as Hm.
        rewrite Hobj, decide_True in Hm by lia.
        split; [|split]; cbn [Pool.imap_items Pool.imap_index Pool.imap_unsorted].
        -- rewrite length_app. simpl. lia.
        -- intros j Hj. destruct (decide (j = Pool.imap_index it)) as [->|Hne].
           ++ split; [by rewrite <-Hm|].
              rewrite lookup_app_r by lia.
              by rewrite Hlen, Nat.sub_diag, <-Hm.
           ++ destruct (Hitems j) as [? ?]; [lia|]. split; [done|].
              by rewrite lookup_app_l by lia.
        -- intros j. destruct (decide (j = Pool.imap_index it)) as [->|Hne].
           ++ rewrite lookup_delete_eq. by rewrite decide_False by lia.
           ++ rewrite lookup_delete_ne by done. rewrite Hun.
              destruct (decide (Pool.imap_index it ≤ j)%nat).
              ** by rewrite decide_True by lia.
              ** by rewrite decide_False by lia.
      * cbn [Pool.imap_unsorted].
        rewrite map_size_delete, Hobj. cbn. lia.
    + split; [done|]. destruct Hit as (_ & _ & Hun).
      specialize (Hun (Pool.imap_index it)).
      rewrite Hobj, decide_True in Hun by lia. done.
Qed.

(** A result that arrives for the first time keeps the invariant. *)
Lemma set_result_ok (i : nat) (obj : result (list B)) it m :
  iterator_ok it m → m !! i = None →
  iterator_ok (Pool.set_result i obj it) (<[i := obj]> m).
Proof.
  intros [(Hlen & Hitems & Hun) Hnext] Hfresh. unfold Pool.set_result.
  destruct (decide (Pool.imap_index it = i)) as [<-|Hne].
  - apply flush_unsorted_ok; [|done].
    split; [|split]; cbn [Pool.imap_items Pool.imap_index Pool.imap_unsorted].
    + rewrite length_app. simpl. lia.
    + intros j Hj. destruct (decide (j = Pool.imap_index it)) as [->|Hne].
      * rewrite lookup_insert_eq. split; [by eexists|].
        rewrite lookup_app_r by lia. by rewrite Hlen, Nat.sub_diag.
      * rewrite lookup_insert_ne by done.
        destruct (Hitems j) as [? ?]; [lia|]. split; [done|].
        by rewrite lookup_app_l by lia.
    + intros j. rewrite Hun.
      destruct (decide (j = Pool.imap_index it)) as [->|Hne].
      * rewrite decide_True, decide_False by lia. done.
      * rewrite lookup_insert_ne by done.
        destruct (decide (Pool.imap_index it ≤ j)%nat).
        -- by rewrite decide_True by lia.
        -- by rewrite decide_False by lia.
  - assert (Hlt : (Pool.imap_index it < i)%nat).
    { destruct (decide (i < Pool.imap_index it)%nat) as [Hlt|]; [|lia].
      destruct (Hitems i Hlt) as [[? ?] _]. congruence. }
    split; [split; [|split]|];
      cbn [Pool.imap_items Pool.imap_index Pool.imap_unsorted].
    + done.
    + intros j Hj. rewrite lookup_insert_ne by lia. by apply Hitems.
    + intros j. destruct (decide (j = i)) as [->|Hne'].
      * rewrite !lookup_insert_eq. by rewrite decide_True by lia.
      * rewrite !lookup_insert_ne by done. apply Hun.
    + by rewrite lookup_insert_ne by done.
Qed.

Lemma iterator_init_ok : iterator_ok (@Pool.IMapIterator_init B) ∅.
Proof.
  split; [|done]. split; [done|]. split.
  - intros j Hj. simpl in Hj. lia.
  - intros j. cbn. rewrite lookup_empty. by case_decide.
Qed.

(** Results arriving in any order, each for the first time, keep the
    invariant. *)
Lemma set_results_ok (arr : list (nat * result (list B))) it m :
  iterator_ok it m →
  NoDup arr.*1 → (∀ i, i ∈ arr.*1 → m !! i = None) →
  iterator_ok (fold_left (fun it ir => Pool.set_result ir.1 ir.2 it) arr it)
    (fold_left (fun m ir => <[ir.1 := ir.2]> m) arr m).
Proof.
  revert it m. induction arr as [|[i r] arr IH]; intros it m Hit Hnd Hfresh.
  - done.
  - rewrite fmap_cons in Hnd, Hfresh. apply NoDup_cons in Hnd as [Hi Hnd].
    cbn [fold_left fst snd]. apply IH; [|done|].
    + apply set_result_ok; [done|]. apply Hfresh, list_elem_of_here.
    + intros j Hj. rewrite lookup_insert_ne by (intros ->; done).
      by apply Hfresh, list_elem_of_further.
Qed.

Lemma lookup_fold_insert_fresh (arr : list (nat * result (list B))) m (j : nat) :
  j ∉ arr.*1 →
  fold_left (fun m ir => <[ir.1 := ir.2]> m) arr m !! j = m !! j.
Proof.
  revert m. induction arr as [|[i r] arr IH]; intros m Hj; [done|].
  rewrite fmap_cons, not_elem_of_cons in Hj. destruct Hj as [Hne Hj].
  cbn [fold_left fst snd]. rewrite IH by done. by rewrite lookup_insert_ne.
Qed.

Lemma lookup_fold_insert (arr : list (nat * result (list B))) m (j : nat)
    (r : result (list B)) :
  NoDup arr.*1 → (j, r) ∈ arr →
  fold_left (fun m ir => <[ir.1 := ir.2]> m) arr m !! j = Some r.
Proof.
  revert m. induction arr as [|[i r'] arr IH]; intros m Hnd Hin.
  - by apply elem_of_nil in Hin.
  - rewrite fmap_cons in Hnd. apply NoDup_cons in Hnd as [Hi Hnd].
    cbn [fold_left fst snd]. apply elem_of_cons in Hin as [[= <- <-]|Hin].
    + rewrite lookup_fold_insert_fresh by done. apply lookup_insert_eq.
    + by apply IH.
Qed.

(** Results arriving in any order, one for each of the tasks [0 .. k-1],
    end up in the items in the order of the tasks. *)
Lemma set_results_items (arr : list (nat * result (list B))) (k : nat) :
  arr.*1 ≡ₚ seq 0 k →
  let it := fold_left (fun it ir => Pool.set_result ir.1 ir.2 it) arr
              Pool.IMapIterator_init in
  length (Pool.imap_items it) = k
  ∧ ∀ j r, (j, r) ∈ arr → Pool.imap_items it !! j = Some r.
Proof.
  intros Hperm it.
  assert (Hnd : NoDup arr.*1) by (rewrite Hperm; apply NoDup_seq).
  destruct (set_results_ok arr Pool.IMapIterator_init ∅)
    as [(Hlen & Hitems & _) Hnext]; [apply iterator_init_ok | done | done |].
  fold it in Hlen, Hitems, Hnext.
  set (m := fold_left _ arr ∅) in *.
  assert (Hdom : ∀ j, is_Some (m !! j) ↔ (j < k)%nat).
  { intros j. destruct (decide (j ∈ arr.*1)) as [Hin|Hnin].
    - pose proof Hin as Hlt. rewrite Hperm, elem_of_seq in Hlt.
      apply list_elem_of_fmap in Hin as ([j' r] & -> & Hin).
      unfold m. erewrite lookup_fold_insert by done.
      cbn in Hlt. split; [intros _; cbn; lia | by eexists].
    - unfold m. rewrite lookup_fold_insert_fresh, lookup_empty by done.
      rewrite Hperm, elem_of_seq in Hnin.
      split; [by intros [? [=]] | lia]. }
  assert (Hk : Pool.imap_index it = k).
  { destruct (decide (Pool.imap_index it < k)%nat) as [Hlt|Hge].
    - apply Hdom in Hlt as [? ?]. congruence.
    - destruct (decide (k < Pool.imap_index it)%nat) as [Hgt|]; [|lia].
      destruct (Hitems k Hgt) as [Hsome _]. apply Hdom in Hsome. lia. }
  split; [lia|]. intros j r Hin.
  assert (Hj : (j < k)%nat).
  { apply Hdom. unfold m. erewrite lookup_fold_insert by done. by eexists. }
  destruct (Hitems j) as [_ ->]; [lia|].
  unfold m. by erewrite lookup_fold_insert.
Qed.

End PoolFacts.

(** ** The results of [imap] *)

Lemma map_result_app {A B} (f : A → result B) (xs ys : list A) :
  map_result f (xs ++ ys)
  = (xs' ← map_result f xs; ys' ← map_result f ys; Ok (xs' ++ ys')).
Proof.
  induction xs as [|x xs IH]; cbn.
  - by destruct (map_result f ys).
  - destruct (f x) as [y|e]; [|done]. cbn. rewrite IH.
    destruct (map_result f xs) as [xs'|e]; [|done]. cbn.
    by destruct (map_result f ys).
Qed.

(** [map_result] succeeds exactly when every call does, and then lists the
    results in the order of the arguments. *)
Lemma map_result_Ok {A B} (f : A → result B) (xs : list A) (ys : list B) :
  map_result f xs = Ok ys ↔ Forall2 (fun x y => f x = Ok y) xs ys.
Proof.
  revert ys. induction xs as [|x xs IH]; intros ys; cbn.
  - split; [intros [= <-]; constructor | by intros ->%Forall2_nil_inv_l].
  - split.
    + destruct (f x) as [y|e] eqn:Hy; [|done]. cbn.
      destruct (map_result f xs) as [ys'|e]; [|done]. cbn.
      intros [= <-]. constructor; [done|]. by apply IH.
    + intros (y & ys' & Hy & Hys & ->)%Forall2_cons_inv_l.
      rewrite Hy. cbn. apply IH in Hys. by rewrite Hys.
Qed.

Section ImapFacts.
Context {A B St : Type}.
Variable func : A → St → result B * St.

(** The iterator sees the results only. *)
Lemma fold_finish_task (tasks : list (nat * list A))
    (it : @Pool.IMapIterator B) (s : St) :
  fold_left (Pool.finish_task func) tasks (it, s)
  = (fold_left (fun it ir => Pool.set_result ir.1 ir.2 it)
       (run_tasks func tasks s).1 it,
     (run_tasks func tasks s).2).
Proof.
  revert it s. induction tasks as [|[i c] tasks IH]; intros it s; [done|].
  cbn [fold_left run_tasks]. unfold Pool.finish_task at 2. cbn [fst snd].
  destruct (Pool.mapstar func c s) as [r s'].
  rewrite IH. by destruct (run_tasks func tasks s') as [rs s''].
Qed.

Lemma run_tasks_fst (tasks : list (nat * list A)) (s : St) :
  (run_tasks func tasks s).1.*1 = tasks.*1.
Proof.
  revert s. induction tasks as [|[i c] tasks IH]; intros s; [done|].
  cbn [run_tasks fst snd]. destruct (Pool.mapstar func c s) as [r s'].
  specialize (IH s'). destruct (run_tasks func tasks s') as [rs s''].
  cbn in *. by rewrite IH.
Qed.

(** Where the result of a call does not depend on the state the call finds,
    [g] gives the results. *)
Variable g : A → result B.
Hypothesis func_result : ∀ x s, (func x s).1 = g x.

Lemma mapstar_fst (chunk : list A) (s : St) :
  (Pool.mapstar func chunk s).1 = map_result g chunk.
Proof.
  revert s. induction chunk as [|x chunk IH]; intros s; [done|].
  cbn [Pool.mapstar map_result]. rewrite <-(func_result x s).
  destruct (func x s) as [[y|e] s']; [|done]. cbn.
  rewrite <-(IH s'). by destruct (Pool.mapstar func chunk s') as [[ys|e] s''].
Qed.

Lemma run_tasks_results (tasks : list (nat * list A)) (s : St) :
  (run_tasks func tasks s).1 = (fun t => (t.1, map_result g t.2)) <$> tasks.
Proof.
  revert s. induction tasks as [|[i c] tasks IH]; intros s; [done|].
  rewrite fmap_cons. cbn [run_tasks fst snd]. rewrite <-(mapstar_fst c s).
  destruct (Pool.mapstar func c s) as [r s'].
  specialize (IH s'). destruct (run_tasks func tasks s') as [rs s''].
  cbn in *. by rewrite IH.
Qed.

Lemma drain_chunks (chunks : list (list A)) :
  Pool.drain (map_result g <$> chunks) = map_result g (concat chunks).
Proof.
  induction chunks as [|c chunks IH]; [done|].
  cbn [fmap list_fmap concat Pool.drain]. rewrite map_result_app.
  change (list_fmap _ _ (map_result g) chunks) with (map_result g <$> chunks).
  destruct (map_result g c) as [ys|e]; [|done]. cbn. by rewrite IH.
Qed.

(** Whatever the schedule, [list(pool.imap(func, iterable, chunksize))] is
    what calling [func] on the elements in order gives: the results in the
    order of the iterable, or the first exception. *)
Lemma imap_results (sched : list nat) (iterable : list A) (chunksize : nat)
    (s : St) :
  (1 ≤ chunksize)%nat →
  (Pool.imap func sched iterable chunksize s).1 = map_result g iterable.
Proof.
  intros Hsize. unfold Pool.imap. rewrite decide_False by lia.
  set (chunks := Pool.get_tasks chunksize iterable).
  set (tasks := zip (seq 0 (length chunks)) chunks).
  rewrite fold_finish_task. cbn [fst].
  transitivity (map_result g (concat chunks));
    [|by unfold chunks; rewrite concat_get_tasks].
  rewrite <-drain_chunks. f_equal.
  set (arr := Pool.arrival_order sched tasks).
  assert (Harr : arr ≡ₚ tasks) by apply arrival_order_Permutation.
  destruct (set_results_items (run_tasks func arr s).1 (length chunks))
    as [Hlen Hitems].
  { rewrite run_tasks_fst, Harr. unfold tasks.
    by rewrite fst_zip by (rewrite length_seq; lia). }
  apply list_eq_same_length with (length chunks);
    [by rewrite length_fmap | done |].
  intros j x y Hj Hx Hy.
  rewrite list_lookup_fmap in Hy.
  destruct (chunks !! j) as [c|] eqn:Hc; [|done]. cbn in Hy.
  assert (Hin : (j, c) ∈ arr).
  { rewrite Harr. unfold tasks. apply list_elem_of_lookup. exists j.
    apply lookup_zip_with_Some. exists j, c. split; [done|]. split; [|done].
    apply lookup_seq. lia. }
  rewrite (Hitems j (map_result g c)) in Hx; [congruence|].
  rewrite run_tasks_results. apply list_elem_of_fmap. by exists (j, c).
Qed.

End ImapFacts.

(** A pool that runs a function without effects. *)
Lemma imap_pure_task {A B} (f : A → result B) (sched : list nat)
    (iterable : list A) (chunksize : nat) :
  (1 ≤ chunksize)%nat →
  (Pool.imap (Pool.pure_task f) sched iterable chunksize ()).1
  = map_result f iterable.
Proof. intros. by apply imap_results. Qed.

Example imap_out_of_order :
  (Pool.imap (Pool.pure_task (fun n : nat => Ok (2 * n)%nat)) [3; 0; 1]%nat
     [1; 2; 3; 4; 5; 6; 7]%nat 2 ()).1
  = Ok [2; 4; 6; 8; 10; 12; 14]%nat.
Proof. reflexivity. Qed.

Example arrival_out_of_order :
  Pool.arrival_order [3; 0; 1]%nat ["a"; "b"; "c"; "d"] = ["d"; "a"; "c"; "b"].
Proof. reflexivity. Qed.

(** ** The decode stage *)

Section Decode.
Context {msg_class msg : Type}.
Variable deserialize_message : list byte → msg_class → result msg.
Variable message_to_ordereddict : msg → list (string * value).

Local Abbreviation parse := (parse_data deserialize_message message_to_ordereddict).
Local Abbreviation parse_all :=
  (parse_topics deserialize_message message_to_ordereddict).

(** What the stage leaves for a topic: the messages of the topic decoded in
    order; the topics it did not come to are as before. *)
Lemma parse_topics_Ok (n_cores : Pool.pyarg) (sched : string → list nat)
    (raw : list (string * @channel msg_class)) (topics : list string)
    (parsed0 parsed : list (string * list (list (string * value)))) :
  parse_all n_cores sched raw topics parsed0 = Ok parsed →
  ∀ topic,
    (topic ∈ topics →
       ∃ ch ms, Dict.get topic raw = Some ch
                ∧ Dict.get topic parsed = Some ms
                ∧ map_result (parse (message_type ch)) (raw_data ch) = Ok ms)
    ∧ (topic ∉ topics → Dict.get topic parsed = Dict.get topic parsed0).
Proof.
  revert parsed0. induction topics as [|t topics IH]; intros parsed0.
  - intros [= <-] topic. split; [by intros ?%elem_of_nil | done].
  - cbn [parse_topics]. destruct (Pool.new n_cores); [|done]. cbn.
    unfold Dict.getitem. destruct (Dict.get t raw) as [ch|] eqn:Hch; [|done].
    cbn. rewrite imap_pure_task by lia.
    destruct (map_result _ (raw_data ch)) as [ms|e] eqn:Hms; [|done]. cbn.
    intros Hrest topic. destruct (IH _ Hrest topic) as [Hin Hnin].
    destruct (decide (topic ∈ topics)) as [Htopic|Htopic].
    + split; [intros _; by apply Hin|].
      intros Habs. exfalso. apply Habs. by apply list_elem_of_further.
    + rewrite (Hnin Htopic). split.
      * intros [->|?]%elem_of_cons; [|done].
        exists ch, ms. by rewrite dict_get_set_eq.
      * intros [Hne _]%not_elem_of_cons. by rewrite dict_get_set_ne.
Qed.

(** The stage succeeds when the pool can be made and every message
    decodes. *)
Lemma parse_topics_is_Ok (n_cores : Pool.pyarg) (sched : string → list nat)
    (raw : list (string * @channel msg_class)) (topics : list string)
    (parsed0 : list (string * list (list (string * value)))) :
  Pool.new n_cores = Ok () →
  (∀ topic, topic ∈ topics →
     ∃ ch, Dict.get topic raw = Some ch
           ∧ is_Ok (map_result (parse (message_type ch)) (raw_data ch))) →
  is_Ok (parse_all n_cores sched raw topics parsed0).
Proof.
  intros Hpool. revert parsed0.
  induction topics as [|t topics IH]; intros parsed0 Hall; [by eexists|].
  cbn [parse_topics]. rewrite Hpool. cbn.
  destruct (Hall t) as (ch & Hch & ms & Hms); [apply list_elem_of_here|].
  unfold Dict.getitem. rewrite Hch. cbn. rewrite imap_pure_task by lia.
  rewrite Hms. cbn. apply IH. intros topic Hin.
  by apply Hall, list_elem_of_further.
Qed.


End Decode.


(** ** Flattening *)

(** Induction on decoded values, through the dictionaries. *)
Lemma value_nested_ind (P : value → Prop) :
  (∀ b, P (VBool b)) → (∀ z, P (VInt z)) → (∀ bits, P (VFloat bits)) →
  (∀ s, P (VStr s)) → (∀ l, P (VList l)) →
  (∀ d, Forall (fun kv => P kv.2) d → P (VDict d)) →
  ∀ v, P v.
Proof.
  intros Hbool Hint Hfloat Hstr Hlist Hdict.
  fix IH 1.
  intros [b|z|bits|s|l|d];
    [apply Hbool | apply Hint | apply Hfloat | apply Hstr | apply Hlist |].
  apply Hdict. induction d as [|[k v] d IHd]; constructor; [apply IH | apply IHd].
Qed.

Lemma dict_keys_set_elem {V} (x k : string) (v : V) (d : list (string * V)) :
  x ∈ Dict.keys (Dict.set k v d) ↔ x = k ∨ x ∈ Dict.keys d.
Proof.
  rewrite dict_keys_set. case_decide as Hk.
  - split; [by right | by intros [->|?]].
  - rewrite elem_of_app, list_elem_of_singleton. tauto.
Qed.

Lemma dict_keys_update_elem {V} (x : string) (d1 d2 : list (string * V)) :
  x ∈ Dict.keys (Dict.update d1 d2) ↔ x ∈ Dict.keys d1 ∨ x ∈ Dict.keys d2.
Proof.
  unfold Dict.update. revert d1.
  induction d2 as [|[k v] d2 IH]; intros d1; cbn [fold_left].
  - unfold Dict.keys at 3. rewrite fmap_nil, elem_of_nil. tauto.
  - rewrite IH, dict_keys_set_elem. unfold Dict.keys at 4.
    rewrite fmap_cons, elem_of_cons. cbn. tauto.
Qed.

Lemma dict_keys_update_NoDup {V} (d1 d2 : list (string * V)) :
  NoDup (Dict.keys d1) → NoDup (Dict.keys (Dict.update d1 d2)).
Proof.
  unfold Dict.update. revert d1.
  induction d2 as [|[k v] d2 IH]; intros d1 Hd1; cbn [fold_left]; [done|].
  by apply IH, dict_keys_set_NoDup.
Qed.

(** The names [json_normalize] gives the columns of one value are the leaf
    paths of its schema. *)
Lemma normalise_json_keys (v : value) (path x : string)
    (acc : list (string * value)) :
  x ∈ Dict.keys (Pandas.normalise_json v path acc)
  ↔ x ∈ Dict.keys acc ∨ x ∈ leaves path (shape v).
Proof.
  revert path acc.
  induction v as [b|z|bits|s|l|d IHd] using value_nested_ind; intros path acc;
    try (cbn [Pandas.normalise_json shape leaves];
         rewrite dict_keys_set_elem, list_elem_of_singleton; tauto).
  cbn [Pandas.normalise_json shape leaves].
  revert acc. induction IHd as [|[k v] d Hv _ IH]; intros acc.
  - rewrite elem_of_nil. tauto.
  - rewrite IH. cbn [snd] in Hv. rewrite Hv, elem_of_app. tauto.
Qed.

Lemma normalise_json_NoDup (v : value) (path : string)
    (acc : list (string * value)) :
  NoDup (Dict.keys acc) → NoDup (Dict.keys (Pandas.normalise_json v path acc)).
Proof.
  revert path acc.
  induction v as [b|z|bits|s|l|d IHd] using value_nested_ind; intros path acc;
    try (cbn [Pandas.normalise_json]; apply dict_keys_set_NoDup).
  cbn [Pandas.normalise_json].
  revert acc. induction IHd as [|[k v] d Hv _ IH]; intros acc Hacc; [done|].
  apply IH, Hv, Hacc.
Qed.

(** The same for a whole record, whose plain fields pandas puts first. *)
Lemma normalise_json_ordered_keys (r : list (string * value)) (x : string) :
  x ∈ Dict.keys (Pandas.normalise_json_ordered r)
  ↔ x ∈ leaves "" (shape (VDict r)).
Proof.
  unfold Pandas.normalise_json_ordered.
  rewrite !dict_keys_update_elem, normalise_json_keys.
  unfold Dict.keys at 1 3. rewrite fmap_nil, !elem_of_nil.
  cbn [shape leaves].
  induction r as [|[k v] r IH].
  - rewrite filter_nil. cbn. rewrite elem_of_nil. tauto.
  - rewrite !filter_cons. cbn [snd]. rewrite elem_of_app, <-IH. clear IH.
    destruct v; cbn [Pandas.is_dict]; repeat case_decide; try done;
      try (unfold Dict.keys at 1; rewrite fmap_cons, elem_of_cons;
           cbn [fst leaves shape]; rewrite list_elem_of_singleton;
           unfold Pandas.new_key; cbn; tauto).
    cbn [shape leaves]. rewrite elem_of_app. tauto.
Qed.

Lemma normalise_json_ordered_NoDup (r : list (string * value)) :
  NoDup (Dict.keys (Pandas.normalise_json_ordered r)).
Proof.
  unfold Pandas.normalise_json_ordered.
  apply dict_keys_update_NoDup, dict_keys_update_NoDup. constructor.
Qed.

(** The columns of a frame made from records: every key, once. *)
Lemma union_keys_elem (x : string) (seen ks : list string) :
  x ∈ Pandas.union_keys seen ks ↔ x ∈ seen ∨ x ∈ ks.
Proof.
  revert seen. induction ks as [|k ks IH]; intros seen; cbn [Pandas.union_keys].
  - rewrite elem_of_nil. tauto.
  - rewrite IH, elem_of_cons. case_decide as Hk.
    + split; [tauto|]. intros [?|[->|?]]; tauto.
    + rewrite elem_of_app, list_elem_of_singleton. tauto.
Qed.

Lemma union_keys_NoDup (seen ks : list string) :
  NoDup seen → NoDup (Pandas.union_keys seen ks).
Proof.
  revert seen. induction ks as [|k ks IH]; intros seen Hseen; [done|].
  cbn [Pandas.union_keys]. apply IH. case_decide as Hk; [done|].
  apply NoDup_app. split; [done|]. split; [|apply NoDup_singleton].
  by intros y Hy ->%list_elem_of_singleton.
Qed.

Lemma record_columns_elem (recs : list (list (string * value))) (x : string) :
  x ∈ Pandas.record_columns recs ↔ ∃ r, r ∈ recs ∧ x ∈ Dict.keys r.
Proof.
  unfold Pandas.record_columns.
  assert (Hgen : ∀ seen,
    x ∈ fold_left (fun seen r => Pandas.union_keys seen (Dict.keys r)) recs seen
    ↔ x ∈ seen ∨ ∃ r, r ∈ recs ∧ x ∈ Dict.keys r).
  { induction recs as [|r recs IH]; intros seen; cbn [fold_left].
    - split; [by left|]. intros [?|(r & Hr & _)]; [done|].
      by apply elem_of_nil in Hr.
    - rewrite IH, union_keys_elem. split.
      + intros [[?|?]|(r' & Hr' & Hx)].
        * by left.
        * right. exists r. split; [apply list_elem_of_here | done].
        * right. exists r'. split; [by apply list_elem_of_further | done].
      + intros [?|(r' & Hr' & Hx)]; [by left; left|].
        apply elem_of_cons in Hr' as [->|Hr'].
        * by left; right.
        * right. by exists r'. }
  rewrite Hgen, elem_of_nil. tauto.
Qed.

Lemma record_columns_NoDup (recs : list (list (string * value))) :
  NoDup (Pandas.record_columns recs).
Proof.
  unfold Pandas.record_columns. generalize (NoDup_nil_2 (A := string)).
  generalize (@nil string).
  induction recs as [|r recs IH]; intros seen Hseen; [done|].
  cbn [fold_left]. by apply IH, union_keys_NoDup.
Qed.

(** ** Joining and sorting *)

(** The join of the stamps with any frame, spelled out. *)
Lemma join_stamps (ts : list Z) (right : Pandas.DataFrame) :
  Pandas.join (Pandas.of_column ts "timestamp") right
  = if decide ("timestamp" ∈ Pandas.columns right)
    then Raise (ValueError "columns overlap but no suffix specified")
    else Ok {| Pandas.index := seq 0 (length ts);
               Pandas.columns := "timestamp" :: Pandas.columns right;
               Pandas.rows := zip_with
                         (fun lbl t =>
                            Pandas.Val (VInt t)
                            :: default (replicate (length (Pandas.columns right)) Pandas.NaN)
                                       (Pandas.loc right lbl))
                         (seq 0 (length ts)) ts |}.
Proof.
  unfold Pandas.join, Pandas.of_column. cbn [Pandas.index Pandas.columns Pandas.rows].
  destruct (decide ("timestamp" ∈ Pandas.columns right)) as [Hin|Hnin].
  - rewrite decide_True; [done|]. by apply Exists_cons_hd.
  - rewrite decide_False.
    + do 2 f_equal. by rewrite zip_with_fmap_r.
    + intros Hex. apply Exists_cons in Hex as [?|Hex]; [done|].
      by apply Exists_nil in Hex.
Qed.

(** The stamp column of the joined frame holds the stamps. *)
Lemma stamp_column (ts : list Z) (ext : nat → list Pandas.cell) :
  (fun r : list Pandas.cell => default Pandas.NaN (r !! 0%nat))
    <$> zip_with (fun lbl t => Pandas.Val (VInt t) :: ext lbl) (seq 0 (length ts)) ts
  = (fun t => Pandas.Val (VInt t)) <$> ts.
Proof.
  generalize 0%nat at 2. induction ts as [|t ts IH]; intros start; [done|].
  cbn [length seq zip_with fmap list_fmap]. f_equal. apply IH.
Qed.

Lemma int_keys_stamps (ts : list Z) :
  Pandas.int_keys ((fun t => Pandas.Val (VInt t)) <$> ts) = Ok ts.
Proof.
  unfold Pandas.int_keys. induction ts as [|t ts IH]; [done|].
  rewrite fmap_cons. cbn [map_result]. cbn -[map_result]. by rewrite IH.
Qed.

Lemma take_Ok (idx : list nat) (rs : list (list Pandas.cell)) :
  Forall (fun i => (i < length rs)%nat) idx →
  Pandas.take idx rs = Ok ((fun i => default [] (rs !! i)) <$> idx).
Proof.
  unfold Pandas.take. induction 1 as [|i idx Hi _ IH]; [done|].
  cbn [map_result]. destruct (lookup_lt_is_Some_2 rs i Hi) as [r Hr].
  rewrite Hr. cbn -[map_result]. by rewrite IH, Hr.
Qed.

(** Taking the rows at a rearrangement of their positions rearranges
    them. *)
Lemma take_Permutation {T} (d : T) (idx : list nat) (rs : list T) :
  idx ≡ₚ seq 0 (length rs) →
  (fun i => default d (rs !! i)) <$> idx ≡ₚ rs.
Proof.
  intros ->.
  enough ((fun i => default d (rs !! i)) <$> seq 0 (length rs) = rs) as ->;
    [done|].
  apply list_eq. intros i. rewrite list_lookup_fmap.
  destruct (decide (i < length rs)%nat) as [Hi|Hi].
  - rewrite lookup_seq_lt by done. cbn.
    by destruct (lookup_lt_is_Some_2 rs i Hi) as [r ->].
  - rewrite lookup_seq_ge by lia. by rewrite lookup_ge_None_2 by lia.
Qed.

(** The stamps of the rows taken at [idx] are the keys at [idx]. *)
Lemma stamps_at (ts : list Z) (ext : nat → list Pandas.cell) (idx : list nat) :
  Forall (fun i => (i < length ts)%nat) idx →
  (fun r : list Pandas.cell => default Pandas.NaN (r !! 0%nat))
    <$> ((fun i => default []
            (zip_with (fun lbl t => Pandas.Val (VInt t) :: ext lbl)
               (seq 0 (length ts)) ts !! i)) <$> idx)
  = (fun t => Pandas.Val (VInt t)) <$> keys_at ts idx.
Proof.
  intros Hidx. unfold keys_at. rewrite <-!list_fmap_compose.
  apply Forall_fmap_ext_1. eapply Forall_impl; [exact Hidx|].
  intros i Hi. cbn. rewrite lookup_zip_with.
  rewrite lookup_seq_lt by done. cbn.
  by destruct (lookup_lt_is_Some_2 ts i Hi) as [t ->].
Qed.

Lemma sorts_in_range (argsort : list Z → list nat) (ks : list Z) :
  sorts argsort → Forall (fun i => (i < length ks)%nat) (argsort ks).
Proof.
  intros Hsorts. destruct (Hsorts ks) as [Hperm _].
  apply Forall_forall. intros i Hi. rewrite Hperm in Hi.
  apply elem_of_seq in Hi. lia.
Qed.

(** The frame that is written, spelled out: the rows of the joined frame at
    the positions the sorting routine returns, relabelled. *)
Lemma df_joined_sorted (argsort : list Z → list nat) (data : save_data)
    (joined : Pandas.DataFrame) :
  sorts argsort →
  Pandas.join (Pandas.of_column (message_stamps data) "timestamp")
       (Pandas.json_normalize (parsed_messages data)) = Ok joined →
  df_joined argsort data
  = Ok {| Pandas.index := seq 0 (length (message_stamps data));
          Pandas.columns := Pandas.columns joined;
          Pandas.rows := (fun i => default [] (Pandas.rows joined !! i))
                    <$> argsort (message_stamps data) |}.
Proof.
  intros Hsorts Hjoin. unfold df_joined. rewrite Hjoin. cbn.
  rewrite join_stamps in Hjoin. case_decide; [done|].
  injection Hjoin as <-. unfold Pandas.sort_values, Pandas.column_values.
  cbn [Pandas.columns Pandas.rows list_find]. rewrite decide_True by done. cbn.
  rewrite stamp_column, int_keys_stamps. cbn.
  rewrite take_Ok.
  - cbn. do 2 f_equal. rewrite length_fmap.
    destruct (Hsorts (message_stamps data)) as [Hperm _].
    by rewrite Hperm, length_seq.
  - rewrite length_zip_with, length_seq, Nat.min_id.
    by apply sorts_in_range.
Qed.

(** The frame is made exactly when no message column is called
    [timestamp]; the exception of the join is the only one that can leave
    lines 45-49. *)
Lemma df_joined_outcome (argsort : list Z → list nat) (data : save_data) :
  sorts argsort →
  if decide ("timestamp"
             ∈ Pandas.columns (Pandas.json_normalize (parsed_messages data)))
  then df_joined argsort data
       = Raise (ValueError "columns overlap but no suffix specified")
  else is_Ok (df_joined argsort data).
Proof.
  intros Hsorts.
  pose proof (join_stamps (message_stamps data)
                (Pandas.json_normalize (parsed_messages data))) as Hjoin.
  case_decide.
  - unfold df_joined. by rewrite Hjoin.
  - rewrite (df_joined_sorted _ _ _ Hsorts Hjoin). by eexists.
Qed.

(** ** The frame that is written *)

(** The file a call of [save_to_file] changes holds the frame of lines
    45-49. *)
Lemma save_to_file_frame (argsort : list Z → list nat)
    (file_format : string) (output_folder : Path.t) (data : save_data)
    (fs fs' : gmap string file) (df : Pandas.DataFrame) :
  df_joined argsort data = Ok df →
  save_to_file argsort file_format output_folder data fs = Ok fs' →
  ∀ p, fs' !! p ≠ fs !! p → file_frame <$> fs' !! p = Some df.
Proof.
  intros Hdf. unfold save_to_file. rewrite Hdf. cbn.
  destruct (file_name (topic_name data)) as [name|e]; [|done]. cbn.
  repeat case_decide; intros [= <-] p Hp; try done.
  all: match goal with
       | |- context [<[?q := _]> _] =>
           destruct (decide (p = q)) as [->|Hne];
           [by rewrite lookup_insert_eq
           |by rewrite lookup_insert_ne in Hp by done]
       end.
Qed.

(** C1, as stated, fails: [sort_values] is called without [kind], and the
    routine numpy then runs does not keep equal keys in order.  On the
    stamps 2, 3, 1, 1 it returns the positions 3, 2, 0, 1, so of the two
    messages with the stamp 1 the later one is written first. *)
Lemma sort_values_not_stable :
  Numpy.argsort [2; 3; 1; 1] = [3; 2; 0; 1]%nat
  ∧ ∃ joined df,
      Pandas.join (Pandas.of_column [2; 3; 1; 1] "timestamp")
        (Pandas.json_normalize
           [[("x", VInt 1)]; [("x", VInt 2)]; [("x", VInt 3)]; [("x", VInt 4)]])
      = Ok joined
      ∧ df_joined Numpy.argsort
          {| topic_name := "/odom";
             parsed_messages :=
               [[("x", VInt 1)]; [("x", VInt 2)]; [("x", VInt 3)]; [("x", VInt 4)]];
             message_stamps := [2; 3; 1; 1] |}
        = Ok df
      ∧ Pandas.rows joined
        = [[Pandas.Val (VInt 2); Pandas.Val (VInt 1)];
           [Pandas.Val (VInt 3); Pandas.Val (VInt 2)];
           [Pandas.Val (VInt 1); Pandas.Val (VInt 3)];
           [Pandas.Val (VInt 1); Pandas.Val (VInt 4)]]
      ∧ Pandas.rows df
        = [[Pandas.Val (VInt 1); Pandas.Val (VInt 4)];
           [Pandas.Val (VInt 1); Pandas.Val (VInt 3)];
           [Pandas.Val (VInt 2); Pandas.Val (VInt 1)];
           [Pandas.Val (VInt 3); Pandas.Val (VInt 2)]]
      ∧ ¬ stable_by_stamp (Pandas.rows joined) (Pandas.rows df).
Proof.
  split; [reflexivity|].
  eexists _, _. split; [reflexivity|]. split; [reflexivity|].
  split; [reflexivity|]. split; [reflexivity|].
  intros Hstable. specialize (Hstable 1). vm_compute in Hstable. discriminate.
Qed.

(** C1, amended: whatever sorting routine is behind [sort_values], the frame
    [save_to_file] writes has the rows of the joined frame, rearranged so
    that the stamps do not decrease, under the row labels [0 .. n-1]; the
    order among rows with equal stamps is the routine's. *)
Theorem saved_frame_sorted (argsort : list Z → list nat) (data : save_data)
    (df : Pandas.DataFrame) :
  sorts argsort →
  df_joined argsort data = Ok df →
  (∃ joined ks,
     Pandas.join (Pandas.of_column (message_stamps data) "timestamp")
       (Pandas.json_normalize (parsed_messages data)) = Ok joined
     ∧ Pandas.rows df ≡ₚ Pandas.rows joined
     ∧ Pandas.column_values df "timestamp"
       = Ok ((fun t => Pandas.Val (VInt t)) <$> ks)
     ∧ Sorted Z.le ks
     ∧ ks ≡ₚ message_stamps data
     ∧ length (Pandas.rows df) = length (message_stamps data)
     ∧ Pandas.index df = seq 0 (length (Pandas.rows df)))
  ∧ ∀ file_format output_folder fs fs',
      save_to_file argsort file_format output_folder data fs = Ok fs' →
      ∀ p, fs' !! p ≠ fs !! p → file_frame <$> fs' !! p = Some df.
Proof.
  intros Hsorts Hdf. split; [|intros; by eapply save_to_file_frame].
  destruct (Pandas.join _ _) as [joined|e] eqn:Hjoin;
    [|by unfold df_joined in Hdf; rewrite Hjoin in Hdf].
  rewrite (df_joined_sorted _ _ _ Hsorts Hjoin) in Hdf. injection Hdf as <-.
  destruct (Hsorts (message_stamps data)) as [Hperm Hsorted].
  pose proof (sorts_in_range _ (message_stamps data) Hsorts) as Hrange.
  rewrite join_stamps in Hjoin. case_decide; [done|]. injection Hjoin as <-.
  eexists _, (keys_at (message_stamps data) (argsort (message_stamps data))).
  split; [done|]. cbn [Pandas.rows Pandas.index Pandas.columns].
  split; [|split; [|split; [done|split; [|split]]]].
  - apply take_Permutation.
    by rewrite length_zip_with, length_seq, Nat.min_id.
  - unfold Pandas.column_values. cbn [Pandas.columns Pandas.rows list_find].
    rewrite decide_True by done. cbn [fst snd fmap option_fmap option_map].
    f_equal. by apply stamps_at.
  - unfold keys_at. by apply take_Permutation.
  - by rewrite length_fmap, Hperm, length_seq.
  - by rewrite length_fmap, Hperm, length_seq.
Qed.

Lemma saved_frame_sorted_witness :
  (∃ joined ks,
     Pandas.join (Pandas.of_column [30; 10; 20; 10] "timestamp")
       (Pandas.json_normalize
          [[("x", VInt 1)]; [("x", VInt 2)]; [("x", VInt 3)]; [("x", VInt 4)]])
     = Ok joined
     ∧ [[Pandas.Val (VInt 10); Pandas.Val (VInt 2)];
        [Pandas.Val (VInt 10); Pandas.Val (VInt 4)];
        [Pandas.Val (VInt 20); Pandas.Val (VInt 3)];
        [Pandas.Val (VInt 30); Pandas.Val (VInt 1)]] ≡ₚ Pandas.rows joined
     ∧ Pandas.column_values
         {| Pandas.index := [0; 1; 2; 3]%nat;
            Pandas.columns := ["timestamp"; "x"];
            Pandas.rows :=
              [[Pandas.Val (VInt 10); Pandas.Val (VInt 2)];
               [Pandas.Val (VInt 10); Pandas.Val (VInt 4)];
               [Pandas.Val (VInt 20); Pandas.Val (VInt 3)];
               [Pandas.Val (VInt 30); Pandas.Val (VInt 1)]] |} "timestamp"
       = Ok ((fun t => Pandas.Val (VInt t)) <$> ks)
     ∧ Sorted Z.le ks
     ∧ ks ≡ₚ [30; 10; 20; 10]
     ∧ 4%nat = 4%nat
     ∧ [0; 1; 2; 3]%nat = seq 0 4)
  ∧ ∀ file_format output_folder fs fs',
      save_to_file argsort_stable file_format output_folder
        {| topic_name := "/odom";
           parsed_messages :=
             [[("x", VInt 1)]; [("x", VInt 2)]; [("x", VInt 3)]; [("x", VInt 4)]];
           message_stamps := [30; 10; 20; 10] |} fs = Ok fs' →
      ∀ p, fs' !! p ≠ fs !! p →
        file_frame <$> fs' !! p
        = Some {| Pandas.index := [0; 1; 2; 3]%nat;
                  Pandas.columns := ["timestamp"; "x"];
                  Pandas.rows :=
                    [[Pandas.Val (VInt 10); Pandas.Val (VInt 2)];
                     [Pandas.Val (VInt 10); Pandas.Val (VInt 4)];
                     [Pandas.Val (VInt 20); Pandas.Val (VInt 3)];
                     [Pandas.Val (VInt 30); Pandas.Val (VInt 1)]] |}.
Proof.
  exact (saved_frame_sorted argsort_stable
           {| topic_name := "/odom";
              parsed_messages :=
                [[("x", VInt 1)]; [("x", VInt 2)]; [("x", VInt 3)]; [("x", VInt 4)]];
              message_stamps := [30; 10; 20; 10] |}
           _ sorts_argsort_stable eq_refl).
Defined.

(** ** The shape of the frame *)

Lemma list_find_seq (lbl m : nat) :
  (lbl < m)%nat →
  list_find (fun l => l = lbl) (seq 0 m) = Some (lbl, lbl).
Proof.
  intros Hlt. apply list_find_Some. split; [by apply lookup_seq_lt|].
  split; [done|]. intros j y Hj Hlt' ->. apply lookup_seq in Hj. lia.
Qed.

Lemma loc_of_records (flats : list (list (string * value))) (lbl : nat) :
  (lbl < length flats)%nat →
  Pandas.loc (Pandas.of_records flats) lbl
  = Pandas.record_row (Pandas.record_columns flats) <$> flats !! lbl.
Proof.
  intros Hlt. unfold Pandas.loc, Pandas.of_records.
  cbn [Pandas.index Pandas.rows]. rewrite list_find_seq by done. cbn.
  apply list_lookup_fmap.
Qed.

(** The columns of the flattened messages of one schema are its leaf
    paths. *)
Lemma json_normalize_columns (recs : list (list (string * value)))
    (sc : schema) (c : string) :
  recs ≠ [] →
  (∀ r, r ∈ recs → shape (VDict r) = sc) →
  c ∈ Pandas.columns (Pandas.json_normalize recs) ↔ c ∈ leaves "" sc.
Proof.
  intros Hne Hsc. unfold Pandas.json_normalize, Pandas.of_records.
  cbn [Pandas.columns]. rewrite record_columns_elem. split.
  - intros (flat & Hflat & Hc).
    apply list_elem_of_fmap in Hflat as (r & -> & Hr).
    apply normalise_json_ordered_keys in Hc. by rewrite (Hsc r Hr) in Hc.
  - intros Hc. destruct recs as [|r recs]; [done|].
    exists (Pandas.normalise_json_ordered r).
    split; [rewrite fmap_cons; apply list_elem_of_here|].
    apply normalise_json_ordered_keys.
    rewrite (Hsc r); [done | apply list_elem_of_here].
Qed.

(** The joined frame when there are as many messages as stamps: the stamp,
    then the flattened message. *)
Lemma joined_rows (ts : list Z) (recs : list (list (string * value))) :
  length recs = length ts →
  zip_with
    (fun lbl t =>
       Pandas.Val (VInt t)
       :: default
            (replicate (length (Pandas.columns (Pandas.json_normalize recs)))
               Pandas.NaN)
            (Pandas.loc (Pandas.json_normalize recs) lbl))
    (seq 0 (length ts)) ts
  = zip_with
      (fun t r =>
         Pandas.Val (VInt t)
         :: Pandas.record_row (Pandas.columns (Pandas.json_normalize recs))
              (Pandas.normalise_json_ordered r))
      ts recs.
Proof.
  intros Hlen. apply list_eq. intros i. rewrite !lookup_zip_with.
  destruct (ts !! i) as [t|] eqn:Ht; [|by destruct (seq 0 (length ts) !! i)].
  pose proof (lookup_lt_Some _ _ _ Ht) as Hi.
  rewrite lookup_seq_lt by done.
  destruct (lookup_lt_is_Some_2 recs i) as [r Hr]; [lia|]. rewrite Hr.
  cbn -[Pandas.json_normalize Pandas.loc Pandas.columns Pandas.record_row
        Pandas.normalise_json_ordered].
  unfold Pandas.json_normalize. rewrite loc_of_records
    by (rewrite length_fmap; lia).
  rewrite list_lookup_fmap, Hr. done.
Qed.

(** C5, as stated, fails twice: a message with a field of its own called
    [timestamp] makes the join raise, so that no frame is made; and without
    any message the frame has the stamp column alone, whatever the schema. *)
Lemma frame_shape_exceptions :
  df_joined argsort_stable
    {| topic_name := "/fix";
       parsed_messages := [[("timestamp", VInt 7); ("x", VInt 1)]];
       message_stamps := [30] |}
  = Raise (ValueError "columns overlap but no suffix specified")
  ∧ leaves "" (shape (VDict [("timestamp", VInt 7); ("x", VInt 1)]))
    = ["timestamp"; "x"]
  ∧ df_joined argsort_stable
      {| topic_name := "/fix"; parsed_messages := []; message_stamps := [] |}
    = Ok {| Pandas.index := []; Pandas.columns := ["timestamp"];
            Pandas.rows := [] |}.
Proof. repeat split; reflexivity. Qed.

(** C5, amended: for a topic with [n ≥ 1] decoded messages of one schema and
    [n] stamps, where no leaf field of the schema has the path [timestamp],
    the frame is made; it has [n] rows, one per message, each the stamp
    followed by the values of the flattened message, with no entry missing;
    and its columns are the stamp column and one column for every leaf path
    of the schema, no other and none twice. *)
Theorem saved_frame_shape (argsort : list Z → list nat) (data : save_data)
    (sc : schema) :
  sorts argsort →
  parsed_messages data ≠ [] →
  length (parsed_messages data) = length (message_stamps data) →
  (∀ r, r ∈ parsed_messages data → shape (VDict r) = sc) →
  "timestamp" ∉ leaves "" sc →
  ∃ df cols,
    df_joined argsort data = Ok df
    ∧ length (Pandas.rows df) = length (parsed_messages data)
    ∧ Pandas.columns df = "timestamp" :: cols
    ∧ NoDup (Pandas.columns df)
    ∧ (∀ c, c ∈ cols ↔ c ∈ leaves "" sc)
    ∧ (NoDup (leaves "" sc) → cols ≡ₚ leaves "" sc)
    ∧ Pandas.rows df
      ≡ₚ zip_with
           (fun t r =>
              Pandas.Val (VInt t)
              :: Pandas.record_row cols (Pandas.normalise_json_ordered r))
           (message_stamps data) (parsed_messages data)
    ∧ Forall (fun row => length row = length (Pandas.columns df)
                         ∧ Pandas.NaN ∉ row) (Pandas.rows df).
Proof.
  intros Hsorts Hne Hlen Hsc Hts.
  destruct data as [topic recs ts].
  cbn [parsed_messages message_stamps] in *.
  set (cols := Pandas.columns (Pandas.json_normalize recs)).
  assert (Hcols : ∀ c, c ∈ cols ↔ c ∈ leaves "" sc)
    by (intros c; by apply json_normalize_columns).
  assert (Hnd : NoDup cols) by apply record_columns_NoDup.
  assert (Hjoin : Pandas.join (Pandas.of_column ts "timestamp")
                    (Pandas.json_normalize recs)
                  = Ok {| Pandas.index := seq 0 (length ts);
                          Pandas.columns := "timestamp" :: cols;
                          Pandas.rows :=
                            zip_with
                              (fun t r =>
                                 Pandas.Val (VInt t)
                                 :: Pandas.record_row cols
                                      (Pandas.normalise_json_ordered r))
                              ts recs |}).
  { rewrite join_stamps.
    rewrite decide_False by (intros Hin; by apply Hcols in Hin).
    by rewrite joined_rows. }
  destruct (Hsorts ts) as [Hperm _].
  eexists _, cols. split; [by apply df_joined_sorted|].
  cbn [Pandas.rows Pandas.columns].
  assert (Hrows :
    (fun i => default []
       (zip_with
          (fun t r =>
             Pandas.Val (VInt t)
             :: Pandas.record_row cols (Pandas.normalise_json_ordered r))
          ts recs !! i)) <$> argsort ts
    ≡ₚ zip_with
         (fun t r =>
            Pandas.Val (VInt t)
            :: Pandas.record_row cols (Pandas.normalise_json_ordered r))
         ts recs).
  { apply take_Permutation. rewrite length_zip_with, Hperm.
    by rewrite <-Hlen, Nat.min_id. }
  split; [by rewrite length_fmap, Hperm, length_seq|]. split; [done|].
  split; [apply NoDup_cons; split; [by rewrite Hcols | done]|].
  split; [done|].
  split; [intros Hleaves; by apply NoDup_Permutation|].
  split; [done|].
  rewrite Hrows. apply Forall_forall. intros row Hrow.
  apply list_elem_of_lookup in Hrow as [i Hrow].
  apply lookup_zip_with_Some in Hrow as (t & r & -> & _ & Hr).
  apply list_elem_of_lookup_2 in Hr.
  unfold Pandas.record_row. cbn [length]. rewrite length_map.
  split; [done|]. rewrite not_elem_of_cons. split; [done|].
  rewrite list_elem_of_In, in_map_iff.
  intros (c & Hc & Hin). apply list_elem_of_In, Hcols in Hin.
  rewrite <-(Hsc r Hr) in Hin.
  apply normalise_json_ordered_keys, dict_get_Some_keys in Hin as [v Hv].
  by rewrite Hv in Hc.
Qed.

Lemma saved_frame_shape_witness :
  ∃ df cols,
    df_joined argsort_stable
      {| topic_name := "/odom";
         parsed_messages :=
           [[("header", VDict [("stamp", VDict [("sec", VInt 1)])]);
             ("pose", VDict [("position", VDict [("x", VFloat 0)])]);
             ("valid", VBool true)];
            [("header", VDict [("stamp", VDict [("sec", VInt 0)])]);
             ("pose", VDict [("position", VDict [("x", VFloat 1)])]);
             ("valid", VBool false)]];
         message_stamps := [30; 10] |}
    = Ok df
    ∧ length (Pandas.rows df) = 2%nat
    ∧ Pandas.columns df = "timestamp" :: cols
    ∧ NoDup (Pandas.columns df)
    ∧ (∀ c, c ∈ cols
            ↔ c ∈ ["header.stamp.sec"; "pose.position.x"; "valid"])
    ∧ (NoDup ["header.stamp.sec"; "pose.position.x"; "valid"] →
       cols ≡ₚ ["header.stamp.sec"; "pose.position.x"; "valid"])
    ∧ Pandas.rows df
      ≡ₚ zip_with
           (fun t r =>
              Pandas.Val (VInt t)
              :: Pandas.record_row cols (Pandas.normalise_json_ordered r))
           [30; 10]
           [[("header", VDict [("stamp", VDict [("sec", VInt 1)])]);
             ("pose", VDict [("position", VDict [("x", VFloat 0)])]);
             ("valid", VBool true)];
            [("header", VDict [("stamp", VDict [("sec", VInt 0)])]);
             ("pose", VDict [("position", VDict [("x", VFloat 1)])]);
             ("valid", VBool false)]]
    ∧ Forall (fun row => length row = length (Pandas.columns df)
                         ∧ Pandas.NaN ∉ row) (Pandas.rows df).
Proof.
  apply (saved_frame_shape argsort_stable
           {| topic_name := "/odom";
              parsed_messages :=
                [[("header", VDict [("stamp", VDict [("sec", VInt 1)])]);
                  ("pose", VDict [("position", VDict [("x", VFloat 0)])]);
                  ("valid", VBool true)];
                 [("header", VDict [("stamp", VDict [("sec", VInt 0)])]);
                  ("pose", VDict [("position", VDict [("x", VFloat 1)])]);
                  ("valid", VBool false)]];
              message_stamps := [30; 10] |}
           (Message [("header", Message [("stamp", Message [("sec", Field)])]);
                     ("pose", Message [("position", Message [("x", Field)])]);
                     ("valid", Field)])).
  - apply sorts_argsort_stable.
  - discriminate.
  - reflexivity.
  - intros r Hr. cbn [parsed_messages] in Hr.
    apply elem_of_cons in Hr as [->|Hr]; [reflexivity|].
    apply elem_of_cons in Hr as [->|Hr]; [reflexivity|].
    by apply elem_of_nil in Hr.
  - cbn. rewrite !not_elem_of_cons. repeat split; try discriminate.
    apply not_elem_of_nil.
Defined.

(** ** The write stage *)

Lemma string_app_inj_l (p a b : string) : p +:+ a = p +:+ b → a = b.
Proof.
  induction p as [|c p IH]; [done|]. intros H.
  change (String c (p +:+ a) = String c (p +:+ b)) in H.
  injection H as H. by apply IH.
Qed.

Lemma string_length_app (a b : string) :
  String.length (a +:+ b) = (String.length a + String.length b)%nat.
Proof. induction a as [|c a IH]; simpl; [done|]. f_equal. exact IH. Qed.

Lemma string_app_inj_r (a b s : string) : a +:+ s = b +:+ s → a = b.
Proof.
  revert b. induction a as [|c a IH]; intros [|c' b]; [done| | |].
  - intros H. apply (f_equal String.length) in H.
    rewrite !string_length_app in H. simpl in H. lia.
  - intros H. apply (f_equal String.length) in H.
    rewrite !string_length_app in H. simpl in H. lia.
  - intros H. change (String c (a +:+ s) = String c' (b +:+ s)) in H.
    injection H as -> H. f_equal. by apply IH.
Qed.

(** *** Paths *)

Lemma contains_app (c : ascii) (a b : string) :
  Str.contains c (a +:+ b) = Str.contains c a || Str.contains c b.
Proof.
  induction a as [|x a IH]; [done|].
  change (Str.contains c (String x (a +:+ b))
          = Str.contains c (String x a) || Str.contains c b).
  cbn [Str.contains]. by rewrite IH, orb_assoc.
Qed.

Lemma split_no_separator (s : string) :
  Str.contains "/" s = false → Path.split s = [s].
Proof.
  induction s as [|c s IH]; [done|]. cbn [Str.contains Path.split].
  intros [Hc Hs]%orb_false_elim. apply bool_decide_eq_false in Hc.
  rewrite decide_False by done. by rewrite IH.
Qed.

(** A name without separator, other than the empty one and [.], is a path of
    one part. *)
Lemma new_component (s : string) :
  Str.contains "/" s = false → s ≠ "" → s ≠ "." →
  Path.new s = {| Path.root := ""; Path.parts := [s] |}.
Proof.
  intros Hs Hne Hdot. unfold Path.new.
  assert (Path.splitroot s = ("", s)) as ->.
  { destruct s as [|c s]; [done|]. cbn [Str.contains] in Hs.
    apply orb_false_elim in Hs as [Hc _]. apply bool_decide_eq_false in Hc.
    unfold Path.splitroot. by rewrite decide_False. }
  rewrite split_no_separator by done. by rewrite filter_cons_True, filter_nil.
Qed.

Lemma join_parts_snoc (ps : list string) (c : string) :
  Path.join_parts (ps ++ [c]) = foldr (fun p acc => p +:+ "/" +:+ acc) c ps.
Proof.
  induction ps as [|p ps IH]; [done|].
  change ((p :: ps) ++ [c]) with (p :: (ps ++ [c])). cbn [Path.join_parts foldr].
  rewrite <-IH. by destruct ps.
Qed.

(** The path of a file in a folder: the folder as [pathlib] spells it, and
    the name. *)
Lemma path_join_component (output_folder : Path.t) (c : string) :
  Str.contains "/" c = false → c ≠ "" → c ≠ "." →
  path_join output_folder c
  = Path.root output_folder
    +:+ foldr (fun p acc => p +:+ "/" +:+ acc) c (Path.parts output_folder).
Proof.
  intros Hc Hne Hdot. unfold path_join, Path.joinpath.
  rewrite new_component by done. cbn [Path.root Path.parts].
  rewrite decide_True by done. unfold Path.str. cbn [Path.root Path.parts].
  rewrite decide_False by (intros [_ ?]; by destruct (Path.parts output_folder)).
  by rewrite join_parts_snoc.
Qed.

Lemma extension_ext (file_format ext : string) :
  extension file_format = Some ext → ext ∈ ["csv"; "parquet"; "pkl"].
Proof.
  unfold extension. repeat case_decide; try done; intros [= <-]; set_solver.
Qed.

(** The name of the file of a base name is a path of one part. *)
Lemma file_component (n ext : string) :
  ext ∈ ["csv"; "parquet"; "pkl"] →
  Str.contains "/" n = false →
  Str.contains "/" (n +:+ "." +:+ ext) = false
  ∧ n +:+ "." +:+ ext ≠ ""
  ∧ n +:+ "." +:+ ext ≠ ".".
Proof.
  intros Hext Hn.
  assert (Str.contains "/" ext = false ∧ (1 ≤ String.length ext)%nat)
    as [Hfree Hlen].
  { repeat (apply elem_of_cons in Hext as [->|Hext]; [split; [done|cbn; lia]|]).
    by apply elem_of_nil in Hext. }
  split; [|split].
  - rewrite !contains_app, Hn, Hfree. done.
  - intros H. apply (f_equal String.length) in H.
    rewrite !string_length_app in H. cbn in H. lia.
  - intros H. apply (f_equal String.length) in H.
    rewrite !string_length_app in H. cbn in H. lia.
Qed.

Lemma file_name_no_separator (t n : string) :
  file_name t = Ok n → Str.contains "/" n = false.
Proof.
  destruct t as [|c t]; [done|]. rewrite file_name_nonempty. intros [= <-].
  by apply replace_contains.
Qed.

(** Two base names give the same path exactly when they are equal. *)
Lemma path_join_inj (output_folder : Path.t) (ext n1 n2 : string) :
  ext ∈ ["csv"; "parquet"; "pkl"] →
  Str.contains "/" n1 = false → Str.contains "/" n2 = false →
  path_join output_folder (n1 +:+ "." +:+ ext)
  = path_join output_folder (n2 +:+ "." +:+ ext) ↔ n1 = n2.
Proof.
  intros Hext H1 H2. split; [|by intros ->].
  destruct (file_component n1 ext Hext H1) as (Ha1 & Hb1 & Hc1).
  destruct (file_component n2 ext Hext H2) as (Ha2 & Hb2 & Hc2).
  rewrite !path_join_component by done. intros H.
  apply string_app_inj_l in H.
  induction (Path.parts output_folder) as [|p ps IH]; cbn [foldr] in H.
  - by apply string_app_inj_r in H.
  - apply IH. apply string_app_inj_l in H. by apply (string_app_inj_l "/") in H.
Qed.



Lemma save_task_outcome (argsort : list Z → list nat)
    (file_format : string) (output_folder : Path.t) (data : save_data)
    (fs : gmap string file) :
  (save_task argsort file_format output_folder data fs).1
  = save_outcome argsort data.
Proof.
  unfold save_task, save_to_file, save_outcome.
  destruct (df_joined argsort data); [|done]. cbn.
  destruct (file_name (topic_name data)); [|done]. cbn.
  by repeat case_decide.
Qed.

(** A call that succeeds under a known format has written the file of the
    topic, and this file only. *)
Lemma save_task_Ok (argsort : list Z → list nat)
    (file_format ext : string) (output_folder : Path.t) (data : save_data)
    (fs : gmap string file) :
  extension file_format = Some ext →
  save_outcome argsort data = Ok () →
  ∃ df name f,
    df_joined argsort data = Ok df
    ∧ file_name (topic_name data) = Ok name
    ∧ file_frame f = df
    ∧ save_task argsort file_format output_folder data fs
      = (Ok (), <[path_join output_folder (name +:+ "." +:+ ext) := f]> fs).
Proof.
  unfold extension, save_outcome, save_task, save_to_file.
  intros Hext Hok.
  destruct (df_joined argsort data) as [df|e]; [|done]. cbn in *.
  destruct (file_name (topic_name data)) as [name|e]; [|done]. cbn in *.
  repeat case_decide; try done; injection Hext as <-;
    eexists df, name, _; (split; [done|]); (split; [done|]);
    (split; [|reflexivity]); done.
Qed.

(** The file a call writes does not depend on the files that are there. *)
Lemma save_task_writes (argsort : list Z → list nat)
    (file_format ext : string) (output_folder : Path.t) (data : save_data) :
  extension file_format = Some ext →
  save_outcome argsort data = Ok () →
  ∃ df name f,
    df_joined argsort data = Ok df
    ∧ file_name (topic_name data) = Ok name
    ∧ file_frame f = df
    ∧ ∀ fs, save_task argsort file_format output_folder data fs
            = (Ok (), <[path_join output_folder (name +:+ "." +:+ ext) := f]> fs).
Proof.
  unfold extension, save_outcome, save_task, save_to_file.
  intros Hext Hok.
  destruct (df_joined argsort data) as [df|e]; [|done]. cbn in *.
  destruct (file_name (topic_name data)) as [name|e]; [|done]. cbn in *.
  repeat case_decide; try done; injection Hext as <-;
    eexists df, name, _; (split; [done|]); (split; [done|]);
    (split; [|reflexivity]); done.
Qed.

Section WriteStage.
Variable argsort : list Z → list nat.
Variables file_format ext : string.
Variable output_folder : Path.t.
Hypothesis known_format : extension file_format = Some ext.

Local Abbreviation save := (save_task argsort file_format output_folder).

(** The paths of the files of the topics in [tasks]. *)
Local Abbreviation written_by tasks p :=
  (∃ data name,
     data ∈ tasks
     ∧ file_name (topic_name data) = Ok name
     ∧ p = path_join output_folder (name +:+ "." +:+ ext)).




End WriteStage.


(** *** What the tasks of the write stage leave *)

Section WriteFrame.
Variable argsort : list Z → list nat.
Variable file_format : string.
Variable output_folder : Path.t.

Local Abbreviation save := (save_task argsort file_format output_folder).

(** [p] is not the path of the file of a task in [tasks]. *)
Local Abbreviation untouched tasks p :=
  (∀ data name ext,
     data ∈ tasks →
     extension file_format = Some ext →
     file_name (topic_name data) = Ok name →
     p ≠ path_join output_folder (name +:+ "." +:+ ext)).





End WriteFrame.

Section WriteContent.
Variable argsort : list Z → list nat.
Variables file_format ext : string.
Variable output_folder : Path.t.
Hypothesis known_format : extension file_format = Some ext.

(** A task whose topic has the base name [name0], and the file it writes. *)
Variables (data0 : save_data) (name0 : string) (f0 : file).
Hypothesis name_of_data0 : file_name (topic_name data0) = Ok name0.

Local Abbreviation save := (save_task argsort file_format output_folder).
Local Abbreviation p0 := (path_join output_folder (name0 +:+ "." +:+ ext)).

Hypothesis save_data0 : ∀ fs, save data0 fs = (Ok (), <[p0 := f0]> fs).

(** No other task in [tasks] has the base name of [data0]. *)
Local Abbreviation alone tasks :=
  (∀ data, data ∈ tasks → file_name (topic_name data) = Ok name0 →
           data = data0).

Lemma mapstar_save_lookup (chunk : list save_data) (fs : gmap string file) :
  (∀ data, data ∈ chunk → save_outcome argsort data = Ok ()) →
  alone chunk →
  data0 ∈ chunk ∨ fs !! p0 = Some f0 →
  (Pool.mapstar save chunk fs).2 !! p0 = Some f0.
Proof.
  revert fs. induction chunk as [|data chunk IH]; intros fs Hok Halone Hin.
  - destruct Hin as [Hin|?]; [by apply elem_of_nil in Hin | done].
  - destruct (save_task_Ok argsort file_format ext output_folder data fs)
      as (df & name & f & _ & Hname & _ & Hsave);
      [done | apply Hok, list_elem_of_here |].
    cbn [Pool.mapstar].
    assert (∃ fs1, save data fs = (Ok (), fs1) ∧ fs1 !! p0 = Some f0
                   ∨ save data fs = (Ok (), fs1)
                     ∧ (data0 ∈ chunk ∨ fs1 !! p0 = Some f0))
      as (fs1 & Hfs1).
    { destruct (decide (name = name0)) as [->|Hne].
      - assert (data = data0) as -> by (apply Halone; [apply list_elem_of_here | done]).
        eexists. left. split; [apply save_data0|]. apply lookup_insert_eq.
      - eexists. right. split; [exact Hsave|].
        destruct Hin as [Hin|Hfs].
        + apply elem_of_cons in Hin as [->|Hin]; [congruence | by left].
        + right. rewrite lookup_insert_ne; [done|].
          intros Heq. apply path_join_inj in Heq; [done|..].
          * by eapply extension_ext.
          * by eapply file_name_no_separator.
          * by eapply file_name_no_separator. }
    assert (save data fs = (Ok (), fs1)
            ∧ (data0 ∈ chunk ∨ fs1 !! p0 = Some f0)) as [-> Hin1].
    { destruct Hfs1 as [[? ?]|[? ?]]; split; auto. }
    specialize (IH fs1).
    destruct (Pool.mapstar save chunk fs1) as [[ys|e] fs2]; cbn [snd] in *.
    all: apply IH; [intros; by apply Hok, list_elem_of_further
                   |intros ???; by apply Halone; [apply list_elem_of_further|]
                   |done].
Qed.

Lemma run_tasks_save_lookup (tasks : list (nat * list save_data))
    (fs : gmap string file) :
  (∀ data, data ∈ concat tasks.*2 → save_outcome argsort data = Ok ()) →
  alone (concat tasks.*2) →
  data0 ∈ concat tasks.*2 ∨ fs !! p0 = Some f0 →
  (run_tasks save tasks fs).2 !! p0 = Some f0.
Proof.
  revert fs. induction tasks as [|[i chunk] tasks IH]; intros fs.
  - intros _ _ [Hin|?]; [by apply elem_of_nil in Hin | done].
  - rewrite fmap_cons. cbn [concat snd run_tasks]. intros Hok Halone Hin.
    pose proof (mapstar_save_lookup chunk fs) as Hchunk.
    destruct (Pool.mapstar save chunk fs) as [r fs1]. cbn [snd] in Hchunk.
    specialize (IH fs1).
    destruct (run_tasks save tasks fs1) as [rs fs2]. cbn [snd] in *.
    apply IH.
    + intros; apply Hok, elem_of_app; auto.
    + intros ???; apply Halone; [apply elem_of_app|]; auto.
    + assert (Hc : data0 ∈ chunk ∨ fs !! p0 = Some f0 → fs1 !! p0 = Some f0).
      { apply Hchunk.
        - intros; apply Hok, elem_of_app; auto.
        - intros ???; apply Halone; [apply elem_of_app|]; auto. }
      destruct Hin as [Hin|Hfs]; [|by right; apply Hc; right].
      apply elem_of_app in Hin as [Hin|Hin]; [right; apply Hc|]; by left.
Qed.

Lemma imap_save_lookup (sched : list nat) (tasks : list save_data)
    (fs fs' : gmap string file) (units : list unit) :
  Pool.imap save sched tasks 1 fs = (Ok units, fs') →
  alone tasks →
  data0 ∈ tasks →
  fs' !! p0 = Some f0.
Proof.
  intros Hrun Halone Hin.
  assert (Hok : ∀ data, data ∈ tasks → save_outcome argsort data = Ok ()).
  { pose proof (imap_results save (save_outcome argsort)
                  (save_task_outcome _ _ _) sched tasks 1 fs) as Hres.
    rewrite Hrun in Hres. cbn [fst] in Hres. specialize (Hres (le_n 1)).
    symmetry in Hres. apply map_result_Ok in Hres.
    intros data Hd. apply list_elem_of_lookup in Hd as [i Hi].
    destruct (Forall2_lookup_l _ _ _ _ _ Hres Hi) as ([] & _ & Hd). done. }
  unfold Pool.imap in Hrun. rewrite decide_False in Hrun by lia.
  rewrite fold_finish_task in Hrun.
  set (chunks := Pool.get_tasks 1 tasks) in *.
  set (arr := Pool.arrival_order sched (zip (seq 0 (length chunks)) chunks)) in *.
  injection Hrun as _ <-.
  assert (Hperm : concat arr.*2 ≡ₚ tasks).
  { unfold arr. rewrite arrival_order_Permutation.
    rewrite snd_zip by (rewrite length_seq; lia).
    unfold chunks. by rewrite concat_get_tasks. }
  apply run_tasks_save_lookup.
  - intros data Hd. apply Hok. by rewrite <-Hperm.
  - intros data Hd. apply Halone. by rewrite <-Hperm.
  - left. by rewrite Hperm.
Qed.

End WriteContent.



(** The folder of the witness is spelled with a separator at its end; the
    files are where [pathlib] puts them. *)
Example write_stage_paths :
  dom (Pool.imap (save_task argsort_stable "csv" (Path.new "out/")) [1]%nat
         [ {| topic_name := "/odom";
              parsed_messages := [[("x", VInt 1)]; [("x", VInt 2)]];
              message_stamps := [30; 10] |};
           {| topic_name := "/imu";
              parsed_messages := [[("y", VInt 3)]];
              message_stamps := [5] |} ] 1 ∅).2
  = {["out/odom.csv"; "out/imu.csv"]}
  ∧ path_join (Path.new "") "odom.csv" = "odom.csv"
  ∧ path_join (Path.new ".") "odom.csv" = "odom.csv"
  ∧ path_join (Path.new "/data//out/./") "odom.csv" = "/data/out/odom.csv".
Proof. repeat split; reflexivity. Qed.

(** ** A run that succeeds *)

Section Success.
Context {msg_class msg : Type}.
Variable get_message : string → result msg_class.
Variable deserialize_message : list byte → msg_class → result msg.
Variable message_to_ordereddict : msg → list (string * value).
Variable argsort : list Z → list nat.
Variable cpu_count : Z.
Variable open_bag : string → string → result bag.

(** The decode stage leaves an entry for every topic it was given. *)
Lemma parse_topics_keys (n_cores : Pool.pyarg) (sched : string → list nat)
    (raw : list (string * @channel msg_class)) (topics : list string)
    (parsed : list (string * list (list (string * value)))) (x : string) :
  parse_topics deserialize_message message_to_ordereddict n_cores sched raw
    topics [] = Ok parsed →
  x ∈ Dict.keys parsed ↔ x ∈ topics.
Proof.
  intros Hrun. rewrite <-dict_get_Some_keys.
  destruct (parse_topics_Ok _ _ _ _ _ _ _ _ Hrun x) as [Hin Hnin].
  destruct (decide (x ∈ topics)) as [Hx|Hx].
  - destruct (Hin Hx) as (ch & ms & _ & -> & _). split; [done | by eexists].
  - rewrite (Hnin Hx). split; [by intros [? [=]] | done].
Qed.

(** The write stage gets one task for every entry. *)
Lemma topic_save_data_topics
    (parsed : list (string * list (list (string * value))))
    (stamps_ : list (string * list Z)) (tasks : list save_data) :
  topic_save_data parsed stamps_ = Ok tasks →
  topic_name <$> tasks = Dict.keys parsed.
Proof.
  unfold topic_save_data. intros Hall%map_result_Ok.
  induction Hall as [|topic task topics tasks Htask _ IH]; [done|].
  rewrite fmap_cons. f_equal; [|done].
  destruct (Dict.getitem topic parsed); [|done]. cbn in Htask.
  destruct (Dict.getitem topic stamps_); [|done]. cbn in Htask.
  by injection Htask as <-.
Qed.


End Success.

(** ** The theorems on concrete runs *)

Lemma unknown_format_rejected_witness :
  main (msg_class := string) (msg := list byte)
    Ok (fun data _ => Ok data) (fun _ => []) argsort_stable 4
    (fun _ _ => Ok {| all_topics_and_types := []; messages := [] |})
    (fun _ => []) []
    {| arg_input := "bag"; arg_output := "out"; opt_s := None;
       opt_format := Some "xml"; opt_cores := None |}
    world_init
  = (Raise (SystemExit 2), world_init).
Proof.
  apply (unknown_format_rejected (msg_class := string) (msg := list byte)).
  cbn. rewrite !not_elem_of_cons.
  repeat split; try discriminate. apply not_elem_of_nil.
Defined.

Lemma unknown_topic_aborts_witness :
  ∃ w' seen,
    main (msg_class := string) (msg := list byte)
      Ok (fun data _ => Ok data) (fun _ => []) argsort_stable 4
      (fun _ _ =>
         Ok {| all_topics_and_types := [("/odom", "nav_msgs/msg/Odometry")];
               messages := [("/odom", [], 30); ("/ghost", [], 40);
                            ("/odom", [], 50)] |})
      (fun _ => []) []
      {| arg_input := "bag"; arg_output := "out"; opt_s := None;
         opt_format := None; opt_cores := None |}
      world_init
    = (Raise (ValueError ("Topic '" +:+ "/ghost" +:+ "' was not found in the bag")), w')
    ∧ files w' = files world_init
    ∧ consumed w' = (consumed world_init + length [("/odom", [] : list byte, 30)] + 1)%nat
    ∧ lookups w' = lookups world_init ++ seen ++ ["/ghost"]
    ∧ NoDup (seen ++ ["/ghost"])
    ∧ ∀ x, x ∈ seen ↔ x ∈ [("/odom", [] : list byte, 30)].*1.*1.
Proof.
  apply (unknown_topic_aborts (msg_class := string) (msg := list byte)
           Ok (fun data _ => Ok data) (fun _ => []) argsort_stable 4
           (fun _ _ =>
              Ok {| all_topics_and_types := [("/odom", "nav_msgs/msg/Odometry")];
                    messages := [("/odom", [], 30); ("/ghost", [], 40);
                                 ("/odom", [], 50)] |})
           (fun _ => []) []
           {| arg_input := "bag"; arg_output := "out"; opt_s := None;
              opt_format := None; opt_cores := None |}
           world_init
           {| input := "bag"; output := "out"; s := "mcap"; format := "csv";
              cores := Pool.PyInt 4 |}
           {| all_topics_and_types := [("/odom", "nav_msgs/msg/Odometry")];
              messages := [("/odom", [], 30); ("/ghost", [], 40);
                           ("/odom", [], 50)] |}
           [("/odom", [], 30)] [("/odom", [], 50)] "/ghost" [] 40).
  - reflexivity.
  - reflexivity.
  - reflexivity.
  - intros m Hm. apply list_elem_of_singleton in Hm as ->.
    by exists "nav_msgs/msg/Odometry".
  - cbn. rewrite not_elem_of_cons. split; [discriminate | apply not_elem_of_nil].
Defined.

(** The scenario of the specification: [/odom] with stamps [30, 10, 20] and
    [/imu] with one message, written as [csv]. *)
Example end_to_end_two_topics :
  ∃ w',
    main (msg_class := string) (msg := list byte)
      Ok (fun data _ => Ok data)
      (fun m => [("size", VInt (Z.of_nat (length m)))]) argsort_stable 4
      (fun _ _ =>
         Ok {| all_topics_and_types :=
                 [("/odom", "nav_msgs/msg/Odometry"); ("/imu", "sensor_msgs/msg/Imu")];
               messages := [("/odom", [x00], 30); ("/imu", [], 5);
                            ("/odom", [x00; x01], 10); ("/odom", [], 20)] |})
      (fun _ => [1]%nat) [1]%nat
      {| arg_input := "bag"; arg_output := "out"; opt_s := None;
         opt_format := None; opt_cores := None |}
      world_init
    = (Ok (), w')
    ∧ dom (files w') = {["out/odom.csv"; "out/imu.csv"]}
    ∧ file_frame <$> files w' !! "out/odom.csv"
      = Some {| Pandas.index := [0; 1; 2]%nat;
                Pandas.columns := ["timestamp"; "size"];
                Pandas.rows :=
                  [[Pandas.Val (VInt 10); Pandas.Val (VInt 2)];
                   [Pandas.Val (VInt 20); Pandas.Val (VInt 0)];
                   [Pandas.Val (VInt 30); Pandas.Val (VInt 1)]] |}
    ∧ consumed w' = 4%nat
    ∧ lookups w' = ["/odom"; "/imu"].
Proof.
  eexists. split; [reflexivity|]. repeat split; reflexivity.
Qed.

(** A value of [--cores] from the command line stays a string, and the
    first pool cannot be made. *)
Example cores_from_command_line :
  (main (msg_class := string) (msg := list byte)
     Ok (fun data _ => Ok data) (fun _ => []) argsort_stable 4
     (fun _ _ =>
        Ok {| all_topics_and_types := [("/odom", "nav_msgs/msg/Odometry")];
              messages := [("/odom", [], 30)] |})
     (fun _ => []) []
     {| arg_input := "bag"; arg_output := "out"; opt_s := None;
        opt_format := None; opt_cores := Some "4" |}
     world_init).1
  = Raise (TypeError "'<' not supported between instances of 'str' and 'int'").
Proof. reflexivity. Qed.

(* ===================================================================== *)
(** * Part III.  Further properties of the code *)
(* ===================================================================== *)

(** ** The base name at the edges *)

Lemma replace_absent (c d : ascii) (t : string) :
  Str.contains c t = false → Str.replace c d t = t.
Proof.
  induction t as [|a t IH]; [done|]. cbn [Str.contains Str.replace].
  intros [Ha Ht]%orb_false_elim. apply bool_decide_eq_false in Ha.
  rewrite decide_False by done. by rewrite IH.
Qed.

Lemma replace_empty (c d : ascii) (t : string) :
  Str.replace c d t = "" ↔ t = "".
Proof. by destruct t. Qed.

(** X1: a topic name made of separators only, like [/], has the empty base
    name, and no other has; the base name is as long as the topic name
    without its leading separators; and a base name that is not empty is its
    own base name. *)
Theorem base_name_edges (t n : string) :
  file_name t = Ok n →
  (n = "" ↔ Str.lstrip "/" t = "")
  ∧ String.length n = String.length (Str.lstrip "/" t)
  ∧ (n ≠ "" → file_name n = Ok n).
Proof.
  destruct t as [|c t]; [done|]. rewrite file_name_nonempty. intros [= <-].
  split; [apply replace_empty|]. split; [apply replace_length|].
  set (n := Str.replace "/" "_" _). intros Hn.
  assert (Hfree : Str.contains "/" n = false) by by apply replace_contains.
  destruct n as [|a n]; [done|]. rewrite file_name_nonempty. f_equal.
  cbn [Str.contains] in Hfree. apply orb_false_elim in Hfree as [Ha Hfree'].
  apply bool_decide_eq_false in Ha. rewrite lstrip_no_lead by done.
  apply replace_absent. cbn [Str.contains].
  by rewrite bool_decide_eq_false_2, Hfree'.
Qed.

Lemma base_name_edges_witness :
  ("" = "" ↔ Str.lstrip "/" "///" = "")
  ∧ String.length "" = String.length (Str.lstrip "/" "///")
  ∧ ("" ≠ "" → file_name "" = Ok "").
Proof. exact (base_name_edges "///" "" eq_refl). Defined.

(** ** The lookup of a topic's type *)

(** X2: [topic_type_from_name] returns the type of the first entry of the
    bag's list that has the name, whatever comes after it, and raises its
    [ValueError] exactly when no entry has the name. *)
Theorem topic_type_from_name_first (tts : list (string * string))
    (name : string) :
  (∀ ty, topic_type_from_name tts name = Ok ty
         ↔ ∃ before after, tts = before ++ (name, ty) :: after
                           ∧ name ∉ before.*1)
  ∧ (topic_type_from_name tts name
     = Raise (ValueError ("Topic '" +:+ name +:+ "' was not found in the bag"))
     ↔ name ∉ tts.*1).
Proof.
  split.
  - intros ty. induction tts as [|[k ty'] tts IH].
    + split; [done|]. intros (before & after & Heq & _). by destruct before.
    + cbn [topic_type_from_name]. destruct (decide (k = name)) as [->|Hne].
      * split.
        -- intros [= ->]. exists [], tts. split; [done | apply not_elem_of_nil].
        -- intros ([|[k0 ty0] before] & after & Heq & Hnin).
           ++ by injection Heq as ->.
           ++ injection Heq as -> -> _. exfalso. apply Hnin, list_elem_of_here.
      * rewrite IH. split.
        -- intros (before & after & -> & Hnin). exists ((k, ty') :: before), after.
           split; [done|]. rewrite fmap_cons, not_elem_of_cons. by split.
        -- intros ([|[k0 ty0] before] & after & Heq & Hnin).
           ++ by injection Heq as -> _.
           ++ injection Heq as -> -> ->. exists before, after. split; [done|].
              rewrite fmap_cons, not_elem_of_cons in Hnin. by destruct Hnin.
  - split; [|apply topic_type_from_name_absent].
    intros Herr Hin. induction tts as [|[k ty'] tts IH].
    + by apply elem_of_nil in Hin.
    + cbn [topic_type_from_name] in Herr.
      destruct (decide (k = name)) as [->|Hne]; [done|].
      rewrite fmap_cons in Hin. apply elem_of_cons in Hin as [->|Hin]; [done|].
      by apply IH.
Qed.

(** ** What a successful collection leaves *)

Section CollectionOrder.
Context {msg_class : Type}.
Variable get_message : string → result msg_class.
Implicit Types (st : @collected msg_class) (w : world) (b : bag).

Lemma filter_all {A} (P : A → Prop) `{!∀ x, Decision (P x)} (l : list A) :
  (∀ x, P x) → filter P l = l.
Proof.
  intros HP. induction l as [|x l IH]; [done|].
  by rewrite filter_cons_True, IH.
Qed.

Lemma first_seen_step_old (K : list string) (t : string) (l : list string) :
  t ∈ K →
  filter (fun x => x ∉ K) (t :: filter (fun x => x ≠ t) l)
  = filter (fun x => x ∉ K) l.
Proof.
  intros Ht. rewrite filter_cons_False by (by intros ?).
  rewrite list_filter_filter. apply list_filter_iff. intros x. split.
  - by intros [? _].
  - intros Hx. split; [done|]. by intros ->.
Qed.

Lemma first_seen_step_new (K : list string) (t : string) (l : list string) :
  t ∉ K →
  filter (fun x => x ∉ K) (t :: filter (fun x => x ≠ t) l)
  = t :: filter (fun x => x ∉ K ++ [t]) l.
Proof.
  intros Ht. rewrite filter_cons_True by done. f_equal.
  rewrite list_filter_filter. apply list_filter_iff. intros x.
  rewrite elem_of_app, list_elem_of_singleton. tauto.
Qed.

Lemma append_stamp_keys (topic : string) (t : Z)
    (stamps_ : list (string * list Z)) :
  Dict.keys (append_stamp topic t stamps_)
  = if decide (topic ∈ Dict.keys stamps_) then Dict.keys stamps_
    else Dict.keys stamps_ ++ [topic].
Proof.
  unfold append_stamp. destruct (Dict.contains topic stamps_) eqn:Hc.
  - apply dict_contains_keys in Hc. rewrite dict_keys_set. by rewrite !decide_True.
  - assert (topic ∉ Dict.keys stamps_) as Hnin.
    { rewrite <-dict_contains_keys. congruence. }
    rewrite !dict_keys_set. rewrite (decide_False (P := topic ∈ Dict.keys stamps_)) by done.
    rewrite decide_True; [done|]. rewrite elem_of_app, list_elem_of_singleton. by right.
Qed.

Lemma read_all_keys b ms st w st' w' :
  read_all get_message b ms st w = (Ok st', w') →
  Dict.keys (stamps st) = Dict.keys (raw_message_data st) →
  Dict.keys (raw_message_data st')
  = Dict.keys (raw_message_data st)
    ++ filter (fun x => x ∉ Dict.keys (raw_message_data st)) (first_seen ms.*1.*1)
  ∧ Dict.keys (stamps st') = Dict.keys (raw_message_data st').
Proof.
  revert st w. induction ms as [|[[topic data] t] ms IH]; intros st w; cbn [read_all].
  - intros [= <- <-] Hk. by rewrite app_nil_r.
  - destruct (read_one get_message b (topic, data, t) st w)
      as [[st1|e] w1] eqn:Hstep; [|by intros [=]].
    intros Hrest Hk.
    pose proof (read_one_keys _ _ _ _ _ _ _ _ _ Hstep) as Hraw.
    assert (Hst : Dict.keys (stamps st1)
                  = if decide (topic ∈ Dict.keys (stamps st)) then Dict.keys (stamps st)
                    else Dict.keys (stamps st) ++ [topic]).
    { rewrite read_one_eq in Hstep.
      destruct (Dict.get topic (raw_message_data st)).
      - injection Hstep as <- _. apply append_stamp_keys.
      - destruct (_ ≫= _); [|done]. injection Hstep as <- _. apply append_stamp_keys. }
    destruct (IH _ _ Hrest) as [Hraw' Hst'].
    { rewrite Hst, Hraw, Hk.
      destruct (Dict.contains topic (raw_message_data st)) eqn:Hc.
      - apply dict_contains_keys in Hc. by rewrite decide_True.
      - rewrite decide_False; [done|]. rewrite <-dict_contains_keys. congruence. }
    split; [|done]. rewrite Hraw', Hraw. rewrite !fmap_cons. cbn [fst first_seen].
    destruct (Dict.contains topic (raw_message_data st)) eqn:Hc.
    + apply dict_contains_keys in Hc. by rewrite first_seen_step_old.
    + assert (topic ∉ Dict.keys (raw_message_data st)) as Hnin.
      { rewrite <-dict_contains_keys. congruence. }
      rewrite first_seen_step_new by done. by rewrite <-app_assoc.
Qed.

(** The classes in [raw_message_data] are those of the bag's list. *)
Lemma read_all_types b ms st w st' w' :
  read_all get_message b ms st w = (Ok st', w') →
  (∀ topic ch, Dict.get topic (raw_message_data st) = Some ch →
     ∃ ty, topic_type_from_name (all_topics_and_types b) topic = Ok ty
           ∧ get_message ty = Ok (message_type ch)) →
  ∀ topic ch, Dict.get topic (raw_message_data st') = Some ch →
    ∃ ty, topic_type_from_name (all_topics_and_types b) topic = Ok ty
          ∧ get_message ty = Ok (message_type ch).
Proof.
  revert st w. induction ms as [|[[topic data] t] ms IH]; intros st w; cbn [read_all].
  - by intros [= <- <-].
  - destruct (read_one get_message b (topic, data, t) st w)
      as [[st1|e] w1] eqn:Hstep; [|by intros [=]].
    intros Hrest Hinv. apply (IH _ _ Hrest). clear IH Hrest.
    intros k ch. rewrite read_one_eq in Hstep.
    destruct (Dict.get topic (raw_message_data st)) as [ch0|] eqn:Hget.
    + injection Hstep as <- _. cbn [raw_message_data]. rewrite dict_get_set.
      case_decide as Hk; [|apply Hinv]. subst k. intros [= <-]. cbn [message_type].
      by apply Hinv.
    + destruct (topic_type_from_name (all_topics_and_types b) topic) as [ty|] eqn:Hty;
        [|done]. cbn in Hstep.
      destruct (get_message ty) as [cls|] eqn:Hcls; [|done].
      injection Hstep as <- _. cbn [raw_message_data]. rewrite !dict_get_set.
      case_decide as Hk; [|apply Hinv]. subst k. intros [= <-]. cbn [message_type].
      by exists ty.
Qed.

(** X3: after a collection that succeeds, both dictionaries list the topics
    of the bag's messages in the order of their first message; the type of
    each of them was looked up once, in that order; and every message was
    read. *)
Theorem collection_first_seen_order b ms w st' w' :
  read_all get_message b ms collected_init w = (Ok st', w') →
  Dict.keys (raw_message_data st') = first_seen ms.*1.*1
  ∧ Dict.keys (stamps st') = first_seen ms.*1.*1
  ∧ lookups w' = lookups w ++ first_seen ms.*1.*1
  ∧ consumed w' = (consumed w + length ms)%nat.
Proof.
  intros Hrun.
  destruct (read_all_keys _ _ _ _ _ _ Hrun eq_refl) as [Hraw Hst].
  cbn in Hraw. rewrite filter_all in Hraw by (intros; apply not_elem_of_nil).
  destruct (read_all_lookups _ _ _ _ _ _ _ (lookups w) Hrun) as [_ Hlog];
    [constructor | by rewrite app_nil_r |].
  apply read_all_Ok in Hrun as [_ Hcount]. by rewrite Hlog, Hst, Hraw.
Qed.

(** X4: after a collection that succeeds, the class stored for a topic is
    the one [get_message] gives for the type of the first entry of the
    bag's list with the topic's name, however many messages of the topic
    were read. *)
Theorem collection_message_types b ms w st' w' topic ch :
  read_all get_message b ms collected_init w = (Ok st', w') →
  Dict.get topic (raw_message_data st') = Some ch →
  ∃ ty, topic_type_from_name (all_topics_and_types b) topic = Ok ty
        ∧ get_message ty = Ok (message_type ch)
        ∧ raw_data ch = (on_topic topic ms).*1.*2.
Proof.
  intros Hrun Hget.
  destruct (read_all_types _ _ _ _ _ _ Hrun) with (topic := topic) (ch := ch)
    as (ty & Hty & Hcls); [done.. |].
  exists ty. split; [done|]. split; [done|].
  apply read_all_Ok in Hrun as [Hshape _]. destruct (Hshape topic) as (Hraw & _).
  unfold channel_raw in Hraw. rewrite Hget in Hraw. done.
Qed.

End CollectionOrder.

Lemma collection_first_seen_order_witness :
  Dict.keys [("/odom", {| message_type := "nav_msgs/msg/Odometry"; raw_data := [[]; []; []] |});
             ("/imu", {| message_type := "sensor_msgs/msg/Imu"; raw_data := [[]] |})]
  = first_seen [("/odom", [] : list byte, 30); ("/imu", [], 5); ("/odom", [], 10); ("/odom", [], 20)].*1.*1
  ∧ Dict.keys [("/odom", [30; 10; 20]); ("/imu", [5])]
    = first_seen [("/odom", [] : list byte, 30); ("/imu", [], 5); ("/odom", [], 10); ("/odom", [], 20)].*1.*1
  ∧ ["/odom"; "/imu"]
    = [] ++ first_seen [("/odom", [] : list byte, 30); ("/imu", [], 5); ("/odom", [], 10); ("/odom", [], 20)].*1.*1
  ∧ 4%nat = (0 + 4)%nat.
Proof.
  exact (collection_first_seen_order (msg_class := string) Ok
           {| all_topics_and_types :=
                [("/odom", "nav_msgs/msg/Odometry"); ("/imu", "sensor_msgs/msg/Imu")];
              messages := [] |}
           [("/odom", [], 30); ("/imu", [], 5); ("/odom", [], 10); ("/odom", [], 20)]
           world_init
           {| raw_message_data :=
                [("/odom", {| message_type := "nav_msgs/msg/Odometry"; raw_data := [[]; []; []] |});
                 ("/imu", {| message_type := "sensor_msgs/msg/Imu"; raw_data := [[]] |})];
              stamps := [("/odom", [30; 10; 20]); ("/imu", [5])] |}
           {| made_dirs := []; opened := []; consumed := 4; lookups := ["/odom"; "/imu"];
              files := ∅ |}
           eq_refl).
Defined.

Lemma collection_message_types_witness :
  ∃ ty, topic_type_from_name
          [("/odom", "nav_msgs/msg/Odometry"); ("/odom", "sensor_msgs/msg/Imu")]
          "/odom" = Ok ty
        ∧ Ok ty = Ok "nav_msgs/msg/Odometry"
        ∧ [[x01]; [x02]]
          = (on_topic "/odom" [("/odom", [x01], 30); ("/odom", [x02], 10)]).*1.*2.
Proof.
  exact (collection_message_types (msg_class := string)
           Ok
           {| all_topics_and_types :=
                [("/odom", "nav_msgs/msg/Odometry"); ("/odom", "sensor_msgs/msg/Imu")];
              messages := [] |}
           [("/odom", [x01], 30); ("/odom", [x02], 10)]
           world_init
           {| raw_message_data :=
                [("/odom", {| message_type := "nav_msgs/msg/Odometry";
                              raw_data := [[x01]; [x02]] |})];
              stamps := [("/odom", [30; 10])] |}
           {| made_dirs := []; opened := []; consumed := 2; lookups := ["/odom"];
              files := ∅ |}
           "/odom"
           {| message_type := "nav_msgs/msg/Odometry"; raw_data := [[x01]; [x02]] |}
           eq_refl eq_refl).
Defined.

(** ** Runs that end early, and the empty bag *)

Lemma parse_args_Ok (cpu_count : Z) (a : argv) (args : namespace) :
  parse_args cpu_count a = Ok args →
  input args = arg_input a
  ∧ output args = arg_output a
  ∧ s args ∈ ["sqlite3"; "mcap"]
  ∧ format args ∈ ["csv"; "parquet"; "pickle"]
  ∧ cores args = match opt_cores a with
                 | Some c => Pool.PyStr c
                 | None => Pool.PyInt cpu_count
                 end.
Proof.
  unfold parse_args. repeat case_decide; try done. by intros [= <-].
Qed.

Lemma imap_nil {A B St} (func : A → St → result B * St) (sched : list nat)
    (s : St) :
  Pool.imap func sched [] 1 s = (Ok [], s).
Proof.
  unfold Pool.imap. rewrite decide_False by lia. cbn [Pool.get_tasks length
    Pool.get_tasks_upto seq zip zip_with].
  assert (Pool.arrival_order sched ([] : list (nat * list A)) = []) as ->; [|done].
  apply Permutation_nil_r. apply arrival_order_Permutation.
Qed.

Section EarlyEnd.
Context {msg_class msg : Type}.
Variable get_message : string → result msg_class.
Variable deserialize_message : list byte → msg_class → result msg.
Variable message_to_ordereddict : msg → list (string * value).
Variable argsort : list Z → list nat.
Variable cpu_count : Z.
Variable open_bag : string → string → result bag.

Local Abbreviation run :=
  (main get_message deserialize_message message_to_ordereddict argsort
     cpu_count open_bag).
Local Abbreviation resolve b topic :=
  (ty ← topic_type_from_name (all_topics_and_types b) topic; get_message ty).

(** X5: the first message of the bag whose topic cannot be resolved, its
    name missing in the bag's list or its type without a class, ends the run
    with the exception of the lookup: the messages up to it were read, the
    topics before it looked up once each in the order of their first
    message, and no file was written. *)
Theorem unresolved_topic_aborts (parse_sched : string → list nat)
    (save_sched : list nat) (a : argv) (w : world) (args : namespace)
    (b : bag) (pre post : list (string * list byte * Z))
    (topic : string) (data : list byte) (t : Z) (e : exn) :
  parse_args cpu_count a = Ok args →
  open_bag (input args) (s args) = Ok b →
  messages b = pre ++ (topic, data, t) :: post →
  (∀ m, m ∈ pre → is_Ok (resolve b m.1.1)) →
  resolve b topic = Raise e →
  ∃ w',
    run parse_sched save_sched a w = (Raise e, w')
    ∧ files w' = files w
    ∧ made_dirs w' = made_dirs w ++ [output args]
    ∧ consumed w' = (consumed w + length pre + 1)%nat
    ∧ lookups w' = lookups w ++ first_seen pre.*1.*1 ++ [topic].
Proof.
  intros Hargs Hopen Hms Hpre Hbad. unfold main. rewrite Hargs, Hopen, Hms.
  match goal with
  | |- context [read_all _ _ _ _ ?w'] => set (w0 := w')
  end.
  destruct (read_all_is_Ok get_message b pre collected_init w0 Hpre)
    as (st1 & w1 & Hrun).
  pose proof (read_all_Ok _ _ _ _ _ _ _ Hrun) as [Hshape Hcount].
  destruct (read_all_lookups _ _ _ _ _ _ _ (lookups w) Hrun) as [Hnd Hlog];
    [constructor | by rewrite app_nil_r |].
  destruct (read_all_keys _ _ _ _ _ _ _ Hrun eq_refl) as [Hkeys _].
  cbn in Hkeys. rewrite filter_all in Hkeys by (intros; apply not_elem_of_nil).
  pose proof (read_all_world _ _ _ _ _ _ _ Hrun) as (Hfiles & Hdirs & _).
  assert (Hnew : Dict.contains topic (raw_message_data st1) = false).
  { apply not_true_is_false. rewrite dict_contains_keys, Hkeys.
    intros Hin. assert (topic ∈ pre.*1.*1) as Hin'.
    { clear -Hin. induction (pre.*1.*1) as [|x l IH]; [done|]. cbn in Hin.
      apply elem_of_cons in Hin as [->|Hin]; [apply list_elem_of_here|].
      apply list_elem_of_further, IH.
      by apply list_elem_of_filter in Hin as [_ ?]. }
    apply list_elem_of_fmap in Hin' as ([k d] & -> & Hin').
    apply list_elem_of_fmap in Hin' as (m & Hm & Hin').
    destruct (Hpre m Hin') as [cls Hcls]. rewrite <-Hm in Hcls. cbn [fst] in Hcls, Hbad.
    congruence. }
  rewrite read_all_app, Hrun. cbn [read_all].
  rewrite (read_one_new_Raise _ _ _ _ _ _ _ e) by done.
  exists (log_lookup topic (log_read w1)).
  subst w0. cbn in Hcount, Hlog, Hfiles, Hdirs.
  split; [done|]. split; [done|]. split; [done|]. split; [cbn; lia|].
  cbn. by rewrite Hlog, Hkeys, app_assoc.
Qed.

(** X6: a message that does not decode, wherever it is in the bag, makes
    the run end with an exception before the first file is written: the
    output directory has been made and holds nothing new. *)
Theorem undecodable_message_aborts (parse_sched : string → list nat)
    (save_sched : list nat) (a : argv) (w : world) (args : namespace)
    (b : bag) (topic : string) (data : list byte) (t : Z)
    (ty : string) (cls : msg_class) (e0 : exn) :
  parse_args cpu_count a = Ok args →
  open_bag (input args) (s args) = Ok b →
  (topic, data, t) ∈ messages b →
  topic_type_from_name (all_topics_and_types b) topic = Ok ty →
  get_message ty = Ok cls →
  parse_data deserialize_message message_to_ordereddict cls data = Raise e0 →
  ∃ e w',
    run parse_sched save_sched a w = (Raise e, w')
    ∧ files w' = files w
    ∧ made_dirs w' = made_dirs w ++ [output args].
Proof.
  intros Hargs Hopen Hin Hty Hcls Hbad. unfold main. rewrite Hargs, Hopen.
  match goal with
  | |- context [read_all _ _ _ _ ?w'] => set (w0 := w')
  end.
  destruct (read_all get_message b (messages b) collected_init w0)
    as [[st|e] w1] eqn:Hrun;
    pose proof (read_all_world _ _ _ _ _ _ _ Hrun) as (Hfiles & Hdirs & _);
    subst w0; cbn in Hfiles, Hdirs; [|by exists e, w1].
  destruct (parse_topics _ _ _ _ _ _ _) as [parsed|e] eqn:Hparse;
    [exfalso | by exists e, w1].
  pose proof (read_all_Ok _ _ _ _ _ _ _ Hrun) as [Hshape _].
  destruct (Hshape topic) as (Hraw & _ & Hcont). cbn in Hcont.
  assert (Hon : (topic, data, t) ∈ on_topic topic (messages b)).
  { unfold on_topic. by apply list_elem_of_filter. }
  assert (Hkey : topic ∈ Dict.keys (raw_message_data st)).
  { apply dict_contains_keys, Hcont. right. intros Hnil. rewrite Hnil in Hon.
    by apply elem_of_nil in Hon. }
  destruct (parse_topics_Ok _ _ _ _ _ _ _ _ Hparse topic) as [Hdone _].
  destruct (Hdone Hkey) as (ch & ms & Hget & _ & Hms).
  destruct (read_all_types _ _ _ _ _ _ _ Hrun) with (topic := topic) (ch := ch)
    as (ty' & Hty' & Hcls'); [done.. |].
  assert (ty' = ty) as -> by congruence.
  assert (message_type ch = cls) as Hm by congruence.
  unfold channel_raw in Hraw. rewrite Hget in Hraw. cbn in Hraw.
  rewrite Hm, Hraw in Hms. apply map_result_Ok in Hms.
  assert (Hd : data ∈ (on_topic topic (messages b)).*1.*2).
  { apply list_elem_of_fmap. exists (topic, data). split; [done|].
    apply list_elem_of_fmap. by exists (topic, data, t). }
  apply list_elem_of_lookup in Hd as [i Hi].
  destruct (Forall2_lookup_l _ _ _ _ _ Hms Hi) as (y & _ & Hy). congruence.
Qed.

(** X7: with [--cores] on the command line no run succeeds and no run
    writes a file: the value stays a string, and when the arguments, the
    bag and the topics of its messages are in order, [Pool] raises its
    [TypeError], also for a bag without messages. *)
Theorem cores_option_never_succeeds (parse_sched : string → list nat)
    (save_sched : list nat) (a : argv) (w : world) (c : string) :
  opt_cores a = Some c →
  ∃ e w',
    run parse_sched save_sched a w = (Raise e, w')
    ∧ files w' = files w
    ∧ ∀ args b,
        parse_args cpu_count a = Ok args →
        open_bag (input args) (s args) = Ok b →
        (∀ m, m ∈ messages b → is_Ok (resolve b m.1.1)) →
        e = TypeError "'<' not supported between instances of 'str' and 'int'".
Proof.
  intros Hc. unfold main.
  destruct (parse_args cpu_count a) as [args|e] eqn:Hargs;
    [|by exists e, w].
  pose proof (parse_args_Ok _ _ _ Hargs) as (_ & _ & _ & _ & Hcores).
  rewrite Hc in Hcores.
  destruct (open_bag (input args) (s args)) as [b|e] eqn:Hopen.
  2:{ eexists e, _. split; [done|]. split; [done|]. intros args' b' Ha Ho.
      congruence. }
  match goal with
  | |- context [read_all _ _ _ _ ?w'] => set (w0 := w')
  end.
  destruct (read_all get_message b (messages b) collected_init w0)
    as [[st|e] w1] eqn:Hrun;
    pose proof (read_all_world _ _ _ _ _ _ _ Hrun) as (Hfiles & _);
    subst w0; cbn in Hfiles.
  - exists (TypeError "'<' not supported between instances of 'str' and 'int'"), w1.
    rewrite Hcores. split; [|done].
    by destruct (Dict.keys (raw_message_data st)).
  - exists e, w1. split; [done|]. split; [done|].
    intros args' b' Ha Ho Hpre.
    assert (args' = args) as -> by congruence.
    rewrite Hopen in Ho. injection Ho as <-.
    destruct (read_all_is_Ok get_message b (messages b) collected_init
                {| made_dirs := made_dirs w ++ [output args];
                   opened := opened w ++ [(input args, s args)];
                   consumed := consumed w; lookups := lookups w;
                   files := files w |} Hpre)
      as (st' & w' & Hrun').
    cbn [made_dirs opened consumed lookups files] in Hrun. congruence.
Qed.

(** X8: a bag without messages gives a run that succeeds when [--cores] is
    left out and the machine has a core: the output directory is made, the
    bag opened, nothing read or looked up, and no file written. *)
Theorem empty_bag_writes_nothing (parse_sched : string → list nat)
    (save_sched : list nat) (a : argv) (w : world) (args : namespace)
    (b : bag) :
  parse_args cpu_count a = Ok args →
  open_bag (input args) (s args) = Ok b →
  messages b = [] →
  opt_cores a = None →
  (1 ≤ cpu_count)%Z →
  run parse_sched save_sched a w
  = (Ok (),
     {| made_dirs := made_dirs w ++ [output args];
        opened := opened w ++ [(input args, s args)];
        consumed := consumed w; lookups := lookups w; files := files w |}).
Proof.
  intros Hargs Hopen Hms Hc Hcpu. unfold main. rewrite Hargs, Hopen, Hms.
  apply parse_args_Ok in Hargs as (_ & _ & _ & _ & Hcores). rewrite Hc in Hcores.
  cbn [read_all collected_init raw_message_data stamps Dict.keys fmap list_fmap
       parse_topics topic_save_data map_result mbind result_bind].
  rewrite Hcores. unfold Pool.new. rewrite decide_False by lia.
  cbn [mbind result_bind]. by rewrite imap_nil.
Qed.

End EarlyEnd.

Lemma dict_getitem_Ok {V} (k : string) (v : V) (d : list (string * V)) :
  Dict.getitem k d = Ok v ↔ Dict.get k d = Some v.
Proof.
  unfold Dict.getitem. destruct (Dict.get k d); split; intros [=]; by subst.
Qed.

(** The tasks of the write stage: one for each decoded topic, with the
    decoded messages and the stamps of the topic. *)
Lemma topic_save_data_elems
    (parsed : list (string * list (list (string * value))))
    (stamps_ : list (string * list Z)) (tasks : list save_data)
    (data : save_data) :
  topic_save_data parsed stamps_ = Ok tasks →
  data ∈ tasks →
  topic_name data ∈ Dict.keys parsed
  ∧ Dict.get (topic_name data) parsed = Some (parsed_messages data)
  ∧ Dict.get (topic_name data) stamps_ = Some (message_stamps data).
Proof.
  unfold topic_save_data. intros Hall%map_result_Ok Hin.
  apply list_elem_of_lookup in Hin as [i Hi].
  destruct (Forall2_lookup_r _ _ _ _ _ Hall Hi) as (topic & Ht & Htask).
  destruct (Dict.getitem topic parsed) as [ms|] eqn:Hms; [|done]. cbn in Htask.
  destruct (Dict.getitem topic stamps_) as [ts|] eqn:Hts; [|done]. cbn in Htask.
  injection Htask as <-. cbn. apply dict_getitem_Ok in Hms, Hts.
  split; [by eapply list_elem_of_lookup_2|]. done.
Qed.

(** The stamp column of the frame that is written: the stamps, sorted. *)
Lemma df_joined_stamp_column (argsort : list Z → list nat) (data : save_data)
    (df : Pandas.DataFrame) :
  sorts argsort →
  df_joined argsort data = Ok df →
  length (Pandas.rows df) = length (message_stamps data)
  ∧ ∃ ks, Pandas.column_values df "timestamp"
          = Ok ((fun t => Pandas.Val (VInt t)) <$> ks)
          ∧ Sorted Z.le ks
          ∧ ks ≡ₚ message_stamps data.
Proof.
  intros Hsorts Hdf.
  destruct (Pandas.join (Pandas.of_column (message_stamps data) "timestamp")
              (Pandas.json_normalize (parsed_messages data)))
    as [joined|e] eqn:Hjoin;
    [|by unfold df_joined in Hdf; rewrite Hjoin in Hdf].
  rewrite (df_joined_sorted _ _ _ Hsorts Hjoin) in Hdf. injection Hdf as <-.
  destruct (Hsorts (message_stamps data)) as [Hperm Hsorted].
  pose proof (sorts_in_range _ (message_stamps data) Hsorts) as Hrange.
  rewrite join_stamps in Hjoin. case_decide; [done|]. injection Hjoin as <-.
  cbn [Pandas.rows Pandas.index Pandas.columns].
  split; [by rewrite length_fmap, Hperm, length_seq|].
  exists (keys_at (message_stamps data) (argsort (message_stamps data))).
  split; [|split; [done|]].
  - unfold Pandas.column_values. cbn [Pandas.columns Pandas.rows list_find].
    rewrite decide_True by done. cbn [fst snd fmap option_fmap option_map].
    f_equal. by apply stamps_at.
  - unfold keys_at. by apply take_Permutation.
Qed.

Section RunFiles.
Context {msg_class msg : Type}.
Variable get_message : string → result msg_class.
Variable deserialize_message : list byte → msg_class → result msg.
Variable message_to_ordereddict : msg → list (string * value).
Variable argsort : list Z → list nat.
Variable cpu_count : Z.
Variable open_bag : string → string → result bag.

Local Abbreviation run :=
  (main get_message deserialize_message message_to_ordereddict argsort
     cpu_count open_bag).

(** The topics of [raw_message_data] are those of the messages. *)
Lemma read_all_topics (b : bag) (ms : list (string * list byte * Z))
    (w w' : world) (st : @collected msg_class) (x : string) :
  read_all get_message b ms collected_init w = (Ok st, w') →
  x ∈ Dict.keys (raw_message_data st) ↔ x ∈ ms.*1.*1.
Proof.
  intros Hread. apply read_all_Ok in Hread as [Hshape _].
  rewrite <-dict_contains_keys, <-on_topic_nonempty.
  destruct (Hshape x) as (_ & _ & ->). split; [by intros [?|?] | by right].
Qed.

(** What a run that succeeds went through. *)
Lemma run_Ok_inv (parse_sched : string → list nat) (save_sched : list nat)
    (a : argv) (w w' : world) (args : namespace) (b : bag) :
  parse_args cpu_count a = Ok args →
  open_bag (input args) (s args) = Ok b →
  run parse_sched save_sched a w = (Ok (), w') →
  ∃ st w1 parsed tasks units,
    read_all get_message b (messages b) collected_init
      {| made_dirs := made_dirs w ++ [output args];
         opened := opened w ++ [(input args, s args)];
         consumed := consumed w; lookups := lookups w; files := files w |}
    = (Ok st, w1)
    ∧ parse_topics deserialize_message message_to_ordereddict (cores args)
        parse_sched (raw_message_data st) (Dict.keys (raw_message_data st)) []
      = Ok parsed
    ∧ topic_save_data parsed (stamps st) = Ok tasks
    ∧ Pool.imap (save_task argsort (format args) (Path.new (output args))) save_sched
        tasks 1 (files w1) = (Ok units, files w')
    ∧ ∀ data, data ∈ tasks → save_outcome argsort data = Ok ().
Proof.
  intros Hargs Hopen. unfold main. rewrite Hargs, Hopen.
  cbn [made_dirs opened consumed lookups files].
  destruct (read_all _ _ _ _ _) as [[st|e] w1] eqn:Hread; [|done].
  destruct (parse_topics _ _ _ _ _ _ _) as [parsed|e] eqn:Hparse; [|done].
  cbn -[Pool.imap].
  destruct (topic_save_data parsed (stamps st)) as [tasks|e] eqn:Htasks;
    [|done].
  cbn -[Pool.imap]. destruct (Pool.new (cores args)); [|done].
  cbn -[Pool.imap].
  destruct (Pool.imap _ _ _ _ _) as [[units|e] fs] eqn:Hsave; [|done].
  cbn. intros [= <-]. exists st, w1, parsed, tasks, units.
  do 4 (split; [done|]).
  pose proof (imap_results (save_task argsort (format args) (Path.new (output args)))
                (save_outcome argsort) (save_task_outcome _ _ _)
                save_sched tasks 1 (files w1)) as Hres.
  rewrite Hsave in Hres. cbn [fst] in Hres. specialize (Hres (le_n 1)).
  symmetry in Hres. apply map_result_Ok in Hres.
  intros data Hd. apply list_elem_of_lookup in Hd as [i Hi].
  destruct (Forall2_lookup_l _ _ _ _ _ Hres Hi) as ([] & _ & Hd). done.
Qed.

(** The task of a topic of the bag's messages in a run that succeeds. *)
Lemma run_Ok_task (b : bag) (w0 w1 : world) (st : @collected msg_class)
    (n_cores : Pool.pyarg) (parse_sched : string → list nat)
    (parsed : list (string * list (list (string * value))))
    (tasks : list save_data) (topic : string) :
  read_all get_message b (messages b) collected_init w0 = (Ok st, w1) →
  parse_topics deserialize_message message_to_ordereddict n_cores
    parse_sched (raw_message_data st) (Dict.keys (raw_message_data st)) []
  = Ok parsed →
  topic_save_data parsed (stamps st) = Ok tasks →
  topic ∈ (messages b).*1.*1 →
  ∃ ty cls ms,
    topic_type_from_name (all_topics_and_types b) topic = Ok ty
    ∧ get_message ty = Ok cls
    ∧ map_result (parse_data deserialize_message message_to_ordereddict cls)
        (on_topic topic (messages b)).*1.*2 = Ok ms
    ∧ {| topic_name := topic; parsed_messages := ms;
         message_stamps := (on_topic topic (messages b)).*2 |} ∈ tasks.
Proof.
  intros Hread Hparse Htasks Htopic.
  assert (Hkey : topic ∈ Dict.keys (raw_message_data st))
    by by apply (read_all_topics _ _ _ _ _ _ Hread).
  destruct (parse_topics_Ok _ _ _ _ _ _ _ _ Hparse topic) as [Hdone _].
  destruct (Hdone Hkey) as (ch & ms & Hget & Hms & Hdec).
  destruct (read_all_types _ _ _ _ _ _ _ Hread) with (topic := topic) (ch := ch)
    as (ty & Hty & Hcls); [done.. |].
  pose proof (read_all_Ok _ _ _ _ _ _ _ Hread) as [Hshape _].
  destruct (Hshape topic) as (Hraw & Hst & _).
  unfold channel_raw in Hraw. rewrite Hget in Hraw. cbn in Hraw.
  rewrite Hraw in Hdec.
  assert (Hin : topic ∈ topic_name <$> tasks).
  { rewrite (topic_save_data_topics _ _ _ Htasks).
    by apply (parse_topics_keys _ _ _ _ _ _ _ _ Hparse). }
  apply list_elem_of_fmap in Hin as (data0 & Hname0 & Hin).
  destruct (topic_save_data_elems _ _ _ _ Htasks Hin) as (_ & Hpm & Hstamps).
  rewrite <-Hname0 in Hpm, Hstamps.
  exists ty, (message_type ch), ms. do 3 (split; [done|]).
  unfold channel_stamps in Hst. rewrite Hstamps in Hst. cbn in Hst.
  destruct data0 as [t0 ms0 ts0]. cbn in *. subst t0. rewrite <-Hst.
  by replace ms with ms0 by congruence.
Qed.


(** X10: after a run that succeeds, the file of a topic that shares its base
    name with no other topic of the bag's messages holds the frame of that
    topic: its messages decoded with the class of its type, in the order of
    the bag, joined with their stamps and sorted, whatever the schedules of
    the pools.  Under a routine that sorts, the frame has a row for every
    message of the topic, no more, and its stamp column is the stamps of
    these messages in non-decreasing order. *)
Theorem run_file_content (parse_sched : string → list nat)
    (save_sched : list nat) (a : argv) (w w' : world) (args : namespace)
    (b : bag) (topic : string) :
  parse_args cpu_count a = Ok args →
  open_bag (input args) (s args) = Ok b →
  run parse_sched save_sched a w = (Ok (), w') →
  topic ∈ (messages b).*1.*1 →
  (∀ t', t' ∈ (messages b).*1.*1 → file_name t' = file_name topic → t' = topic) →
  ∃ ty cls parsed df name ext f,
    topic_type_from_name (all_topics_and_types b) topic = Ok ty
    ∧ get_message ty = Ok cls
    ∧ map_result (parse_data deserialize_message message_to_ordereddict cls)
        (on_topic topic (messages b)).*1.*2 = Ok parsed
    ∧ df_joined argsort
        {| topic_name := topic; parsed_messages := parsed;
           message_stamps := (on_topic topic (messages b)).*2 |} = Ok df
    ∧ file_name topic = Ok name
    ∧ extension (format args) = Some ext
    ∧ files w' !! path_join (Path.new (output args)) (name +:+ "." +:+ ext) = Some f
    ∧ file_frame f = df
    ∧ (sorts argsort →
       length (Pandas.rows df) = length (on_topic topic (messages b))
       ∧ ∃ ks, Pandas.column_values df "timestamp"
               = Ok ((fun t => Pandas.Val (VInt t)) <$> ks)
               ∧ Sorted Z.le ks
               ∧ ks ≡ₚ (on_topic topic (messages b)).*2).
Proof.
  intros Hargs Hopen Hrun Htopic Halone.
  destruct (run_Ok_inv _ _ _ _ _ _ _ Hargs Hopen Hrun)
    as (st & w1 & parsed & tasks & units & Hread & Hparse & Htasks & Hsave & Hok).
  destruct (run_Ok_task _ _ _ _ _ _ _ _ _ Hread Hparse Htasks Htopic)
    as (ty & cls & ms & Hty & Hcls & Hms & Hin).
  assert (∃ ext, extension (format args) = Some ext) as [ext Hext].
  { apply parse_args_Ok in Hargs as (_ & _ & _ & Hfmt & _).
    unfold extension. repeat case_decide; try by eexists.
    exfalso. repeat (apply elem_of_cons in Hfmt as [?|Hfmt]; [done|]).
    by apply elem_of_nil in Hfmt. }
  destruct (save_task_writes argsort (format args) ext (Path.new (output args)) _
              Hext (Hok _ Hin))
    as (df & name & f & Hdf & Hname & Hframe & Hwrite).
  exists ty, cls, ms, df, name, ext, f. cbn [topic_name] in Hname.
  do 6 (split; [done|]). split; [|split; [done|]].
  2:{ intros Hsorts.
      destruct (df_joined_stamp_column _ _ _ Hsorts Hdf) as [Hlen Hks].
      cbn [message_stamps] in Hlen, Hks. by rewrite length_fmap in Hlen. }
  apply (imap_save_lookup argsort (format args) ext (Path.new (output args)) Hext
           {| topic_name := topic; parsed_messages := ms;
              message_stamps := (on_topic topic (messages b)).*2 |}
           name f Hname Hwrite _ _ _ _ _ Hsave); [|done].
  intros data Hd Hn.
  destruct (topic_save_data_elems _ _ _ _ Htasks Hd) as (Hk & Hpm' & Hst').
  destruct (topic_save_data_elems _ _ _ _ Htasks Hin) as (_ & Hpm & Hst).
  cbn in Hpm, Hst.
  assert (topic_name data = topic) as Ht.
  { apply Halone; [|congruence].
    apply (read_all_topics _ _ _ _ _ _ Hread).
    by apply (parse_topics_keys _ _ _ _ _ _ _ _ Hparse). }
  rewrite Ht in Hpm', Hst'. destruct data as [t1 ms1 ts1].
  cbn in *. congruence.
Qed.

(** X11: a message with a field that flattens to a column named
    [timestamp], as a field of that name at the top of the message does,
    keeps every run from succeeding: the stamps are joined as a column of
    the same name, and the join raises. *)
Theorem timestamp_field_aborts (parse_sched : string → list nat)
    (save_sched : list nat) (a : argv) (w : world) (args : namespace)
    (b : bag) (topic : string) (data : list byte) (t : Z)
    (ty : string) (cls : msg_class) (m : msg) :
  parse_args cpu_count a = Ok args →
  open_bag (input args) (s args) = Ok b →
  (topic, data, t) ∈ messages b →
  topic_type_from_name (all_topics_and_types b) topic = Ok ty →
  get_message ty = Ok cls →
  deserialize_message data cls = Ok m →
  "timestamp" ∈ leaves "" (shape (VDict (message_to_ordereddict m))) →
  ∃ e w', run parse_sched save_sched a w = (Raise e, w').
Proof.
  intros Hargs Hopen Hmsg Hty Hcls Hm Hleaf.
  destruct (run parse_sched save_sched a w) as [[[]|e] w'] eqn:Hrun;
    [exfalso | by exists e, w'].
  destruct (run_Ok_inv _ _ _ _ _ _ _ Hargs Hopen Hrun)
    as (st & w1 & parsed & tasks & units & Hread & Hparse & Htasks & _ & Hok).
  assert (Htopic : topic ∈ (messages b).*1.*1).
  { apply list_elem_of_fmap. exists (topic, data). split; [done|].
    apply list_elem_of_fmap. by exists (topic, data, t). }
  destruct (run_Ok_task _ _ _ _ _ _ _ _ _ Hread Hparse Htasks Htopic)
    as (ty' & cls' & ms & Hty' & Hcls' & Hms & Hin).
  assert (ty' = ty) as -> by congruence.
  assert (cls' = cls) as -> by congruence.
  specialize (Hok _ Hin). unfold save_outcome, df_joined in Hok.
  cbn [parsed_messages message_stamps] in Hok.
  rewrite join_stamps in Hok. rewrite decide_True in Hok; [done|].
  unfold Pandas.json_normalize, Pandas.of_records. cbn [Pandas.columns].
  apply record_columns_elem.
  exists (Pandas.normalise_json_ordered (message_to_ordereddict m)).
  split; [|by apply normalise_json_ordered_keys].
  apply list_elem_of_fmap. exists (message_to_ordereddict m). split; [done|].
  apply map_result_Ok in Hms.
  assert (Hd : data ∈ (on_topic topic (messages b)).*1.*2).
  { apply list_elem_of_fmap. exists (topic, data). split; [done|].
    apply list_elem_of_fmap. exists (topic, data, t). split; [done|].
    unfold on_topic. by apply list_elem_of_filter. }
  apply list_elem_of_lookup in Hd as [i Hi].
  destruct (Forall2_lookup_l _ _ _ _ _ Hms Hi) as (y & Hy & Hdec).
  unfold parse_data in Hdec. rewrite Hm in Hdec. cbn in Hdec.
  injection Hdec as <-. by eapply list_elem_of_lookup_2.
Qed.

End RunFiles.

(** ** Sorting when the stamps decide the order *)

Lemma lookup_all_seq {T} (d : T) (l : list T) :
  (fun i => default d (l !! i)) <$> seq 0 (length l) = l.
Proof.
  apply list_eq. intros i. rewrite list_lookup_fmap.
  destruct (decide (i < length l)%nat) as [Hlt|Hge].
  - rewrite lookup_seq_lt by done. cbn.
    destruct (lookup_lt_is_Some_2 l i Hlt) as [x Hx]. by rewrite Hx.
  - rewrite lookup_seq_ge by lia. cbn. symmetry. apply lookup_ge_None. lia.
Qed.

Lemma keys_at_inj (ks : list Z) (idx1 idx2 : list nat) :
  NoDup ks →
  Forall (fun i => (i < length ks)%nat) idx1 →
  Forall (fun i => (i < length ks)%nat) idx2 →
  keys_at ks idx1 = keys_at ks idx2 → idx1 = idx2.
Proof.
  intros Hnd H1. revert idx2.
  induction H1 as [|i idx1 Hi _ IH]; intros [|j idx2] H2 Heq; try done.
  apply Forall_cons in H2 as [Hj H2]. injection Heq as Hij Heq.
  f_equal; [|by apply IH].
  destruct (lookup_lt_is_Some_2 ks i Hi) as [x Hx].
  destruct (lookup_lt_is_Some_2 ks j Hj) as [y Hy].
  rewrite Hx, Hy in Hij. cbn in Hij. subst y. by eapply NoDup_lookup.
Qed.

(** When no two keys are equal, the positions that sort them are fixed. *)
Lemma sorted_indexer_unique (ks : list Z) (idx1 idx2 : list nat) :
  NoDup ks →
  idx1 ≡ₚ seq 0 (length ks) → idx2 ≡ₚ seq 0 (length ks) →
  Sorted Z.le (keys_at ks idx1) → Sorted Z.le (keys_at ks idx2) →
  idx1 = idx2.
Proof.
  intros Hnd Hp1 Hp2 Hs1 Hs2.
  assert (Hin : ∀ idx, idx ≡ₚ seq 0 (length ks) →
                       Forall (fun i => (i < length ks)%nat) idx).
  { intros idx Hp. apply Forall_forall. intros i Hi. rewrite Hp in Hi.
    apply elem_of_seq in Hi. lia. }
  apply (keys_at_inj ks); auto.
  apply (Sorted_unique Z.le); [done..|].
  unfold keys_at. by rewrite Hp1, Hp2.
Qed.

Lemma Sorted_lt_le (ks : list Z) : Sorted Z.lt ks → Sorted Z.le ks.
Proof.
  induction 1 as [|x l _ IH Hhd]; constructor; [done|].
  destruct Hhd; constructor. lia.
Qed.

Lemma Sorted_lt_NoDup (ks : list Z) : Sorted Z.lt ks → NoDup ks.
Proof.
  intros Hs%Sorted_StronglySorted; [|apply _].
  induction Hs as [|x l _ IH Hall]; constructor; [|done].
  intros Hin. rewrite Forall_forall in Hall. specialize (Hall x Hin). lia.
Qed.

(** X12: when the stamps of a topic are all different, the frame and the
    file are the same under every sorting routine: the order numpy's default
    routine leaves open is that of rows with equal stamps only. *)
Theorem distinct_stamps_any_routine (argsort1 argsort2 : list Z → list nat)
    (data : save_data) :
  sorts argsort1 → sorts argsort2 →
  NoDup (message_stamps data) →
  df_joined argsort1 data = df_joined argsort2 data
  ∧ ∀ file_format output_folder fs,
      save_to_file argsort1 file_format output_folder data fs
      = save_to_file argsort2 file_format output_folder data fs.
Proof.
  intros Hs1 Hs2 Hnd.
  assert (Heq : df_joined argsort1 data = df_joined argsort2 data).
  { destruct (Pandas.join (Pandas.of_column (message_stamps data) "timestamp")
                (Pandas.json_normalize (parsed_messages data)))
      as [joined|e] eqn:Hjoin.
    - rewrite !(df_joined_sorted _ _ joined) by done. do 3 f_equal.
      destruct (Hs1 (message_stamps data)), (Hs2 (message_stamps data)).
      by apply (sorted_indexer_unique (message_stamps data)).
    - unfold df_joined. by rewrite Hjoin. }
  split; [done|]. intros. unfold save_to_file. by rewrite Heq.
Qed.

(** X13: when the stamps of a topic increase along the bag, sorting changes
    nothing: the frame that is written is the joined frame, its rows in the
    order of the messages in the bag, under every sorting routine. *)
Theorem increasing_stamps_keep_order (argsort : list Z → list nat)
    (data : save_data) :
  sorts argsort →
  Sorted Z.lt (message_stamps data) →
  df_joined argsort data
  = Pandas.join (Pandas.of_column (message_stamps data) "timestamp")
      (Pandas.json_normalize (parsed_messages data)).
Proof.
  intros Hs Hinc.
  destruct (Pandas.join (Pandas.of_column (message_stamps data) "timestamp")
              (Pandas.json_normalize (parsed_messages data)))
    as [joined|e] eqn:Hjoin; [|unfold df_joined; by rewrite Hjoin].
  rewrite (df_joined_sorted _ _ joined) by done.
  assert (argsort (message_stamps data) = seq 0 (length (message_stamps data)))
    as ->.
  { destruct (Hs (message_stamps data)) as [Hperm Hsorted].
    apply (sorted_indexer_unique (message_stamps data)); try done.
    - by apply Sorted_lt_NoDup.
    - unfold keys_at. rewrite lookup_all_seq. by apply Sorted_lt_le. }
  rewrite join_stamps in Hjoin. case_decide; [done|]. injection Hjoin as <-.
  cbn [Pandas.index Pandas.columns Pandas.rows]. f_equal. f_equal.
  set (rows := zip_with _ _ _).
  assert (length rows = length (message_stamps data)) as <-.
  { unfold rows. rewrite length_zip_with, length_seq. lia. }
  apply lookup_all_seq.
Qed.

(** ** The schedules of the pools *)

Section Schedules.
Context {msg_class msg : Type}.
Variable get_message : string → result msg_class.
Variable deserialize_message : list byte → msg_class → result msg.
Variable message_to_ordereddict : msg → list (string * value).
Variable argsort : list Z → list nat.
Variable cpu_count : Z.
Variable open_bag : string → string → result bag.

Local Abbreviation run :=
  (main get_message deserialize_message message_to_ordereddict argsort
     cpu_count open_bag).

Lemma parse_topics_sched (n_cores : Pool.pyarg) (sched sched' : string → list nat)
    (raw : list (string * @channel msg_class)) (topics : list string)
    (parsed : list (string * list (list (string * value)))) :
  parse_topics deserialize_message message_to_ordereddict n_cores sched raw
    topics parsed
  = parse_topics deserialize_message message_to_ordereddict n_cores sched' raw
      topics parsed.
Proof.
  revert parsed. induction topics as [|topic topics IH]; intros parsed; [done|].
  cbn [parse_topics]. destruct (Pool.new n_cores); [|done]. cbn.
  destruct (Dict.getitem topic raw) as [ch|]; [|done]. cbn.
  rewrite !imap_pure_task by lia.
  destruct (map_result _ _); [|done]. cbn. apply IH.
Qed.

Section Writes.
Variables file_format ext : string.
Variable output_folder : Path.t.
Hypothesis known_format : extension file_format = Some ext.

Local Abbreviation save := (save_task argsort file_format output_folder).
Local Abbreviation step := (fun fs x => (save x fs).2).

(** Tasks with the same base name are the same task. *)
Local Abbreviation apart tasks :=
  (∀ x y, x ∈ tasks → y ∈ tasks →
          file_name (topic_name x) = file_name (topic_name y) → x = y).

Lemma mapstar_save_fold (chunk : list save_data) (fs : gmap string file) :
  (∀ x, x ∈ chunk → save_outcome argsort x = Ok ()) →
  (Pool.mapstar save chunk fs).2 = fold_left step chunk fs.
Proof.
  revert fs. induction chunk as [|x chunk IH]; intros fs Hok; [done|].
  cbn [Pool.mapstar fold_left].
  destruct (save_task_Ok argsort file_format ext output_folder x fs)
    as (df & name & f & _ & _ & _ & Hsave);
    [done | apply Hok, list_elem_of_here |].
  rewrite Hsave. cbn [snd].
  specialize (IH (<[path_join output_folder (name +:+ "." +:+ ext) := f]> fs)).
  destruct (Pool.mapstar save chunk _) as [[ys|e] fs2]; cbn [snd] in *;
    apply IH; intros; by apply Hok, list_elem_of_further.
Qed.

Lemma run_tasks_save_fold (tasks : list (nat * list save_data))
    (fs : gmap string file) :
  (∀ x, x ∈ concat tasks.*2 → save_outcome argsort x = Ok ()) →
  (run_tasks save tasks fs).2 = fold_left step (concat tasks.*2) fs.
Proof.
  revert fs. induction tasks as [|[i chunk] tasks IH]; intros fs; [done|].
  rewrite fmap_cons. cbn [concat snd run_tasks]. intros Hok.
  rewrite fold_left_app.
  pose proof (mapstar_save_fold chunk fs) as Hchunk.
  destruct (Pool.mapstar save chunk fs) as [r fs1]. cbn [snd] in Hchunk.
  specialize (IH fs1).
  destruct (run_tasks save tasks fs1) as [rs fs2]. cbn [snd] in *.
  rewrite <-Hchunk by (intros; apply Hok, elem_of_app; auto).
  apply IH. intros; apply Hok, elem_of_app; auto.
Qed.

Lemma step_commute (x y : save_data) (fs : gmap string file) :
  save_outcome argsort x = Ok () → save_outcome argsort y = Ok () →
  (file_name (topic_name x) = file_name (topic_name y) → x = y) →
  step (step fs x) y = step (step fs y) x.
Proof.
  intros Hx Hy Hxy.
  destruct (save_task_writes argsort file_format ext output_folder x)
    as (dfx & nx & fx & _ & Hnx & _ & Hsx); [done..|].
  destruct (save_task_writes argsort file_format ext output_folder y)
    as (dfy & ny & fy & _ & Hny & _ & Hsy); [done..|].
  destruct (decide (nx = ny)) as [->|Hne].
  - by rewrite (Hxy (eq_trans Hnx (eq_sym Hny))).
  - cbn beta. rewrite (Hsx fs), (Hsy fs). cbn [snd]. rewrite Hsx, Hsy. cbn [snd].
    apply insert_insert_ne. intros Heq. apply path_join_inj in Heq; [done|..].
    + by eapply extension_ext.
    + by eapply file_name_no_separator.
    + by eapply file_name_no_separator.
Qed.

Lemma fold_step_Permutation (xs ys : list save_data) (fs : gmap string file) :
  xs ≡ₚ ys →
  (∀ x, x ∈ xs → save_outcome argsort x = Ok ()) →
  apart xs →
  fold_left step xs fs = fold_left step ys fs.
Proof.
  intros Hperm. revert fs.
  induction Hperm as [|x xs ys Hperm IH|x y xs|xs ys zs Hp1 IH1 Hp2 IH2];
    intros fs Hok Hapart.
  - done.
  - cbn [fold_left]. apply IH.
    + intros; by apply Hok, list_elem_of_further.
    + intros ?? ??; apply Hapart; by apply list_elem_of_further.
  - cbn [fold_left]. f_equal. apply step_commute.
    + apply Hok, list_elem_of_here.
    + apply Hok, list_elem_of_further, list_elem_of_here.
    + apply Hapart; [|apply list_elem_of_further]; apply list_elem_of_here.
  - rewrite IH1 by done. apply IH2.
    + intros x Hx. apply Hok. by rewrite Hp1.
    + intros x y Hx Hy. apply Hapart; by rewrite Hp1.
Qed.

(** The write stage, when every task succeeds and the base names keep the
    tasks apart: the files are those of the tasks run one after the other. *)
Lemma imap_save_state (sched : list nat) (tasks : list save_data)
    (fs : gmap string file) :
  (∀ x, x ∈ tasks → save_outcome argsort x = Ok ()) →
  apart tasks →
  (Pool.imap save sched tasks 1 fs).2 = fold_left step tasks fs.
Proof.
  intros Hok Hapart. unfold Pool.imap. rewrite decide_False by lia.
  rewrite fold_finish_task. cbn [snd].
  set (chunks := Pool.get_tasks 1 tasks).
  set (arr := Pool.arrival_order sched (zip (seq 0 (length chunks)) chunks)).
  assert (Hperm : concat arr.*2 ≡ₚ tasks).
  { unfold arr. rewrite arrival_order_Permutation.
    rewrite snd_zip by (rewrite length_seq; lia).
    unfold chunks. by rewrite concat_get_tasks. }
  rewrite run_tasks_save_fold by (intros x Hx; apply Hok; by rewrite <-Hperm).
  apply fold_step_Permutation; [done|..].
  - intros x Hx. apply Hok. by rewrite <-Hperm.
  - intros x y Hx Hy. apply Hapart; by rewrite <-Hperm.
Qed.

Lemma imap_save_sched (sched sched' : list nat) (tasks : list save_data)
    (fs : gmap string file) :
  (∀ x, x ∈ tasks → save_outcome argsort x = Ok ()) →
  apart tasks →
  Pool.imap save sched tasks 1 fs = Pool.imap save sched' tasks 1 fs.
Proof.
  intros Hok Hapart.
  pose proof (imap_results save (save_outcome argsort)
                (save_task_outcome _ _ _) sched tasks 1 fs (le_n 1)) as H1.
  pose proof (imap_results save (save_outcome argsort)
                (save_task_outcome _ _ _) sched' tasks 1 fs (le_n 1)) as H2.
  pose proof (imap_save_state sched tasks fs Hok Hapart) as H3.
  pose proof (imap_save_state sched' tasks fs Hok Hapart) as H4.
  destruct (Pool.imap save sched tasks 1 fs), (Pool.imap save sched' tasks 1 fs).
  cbn [fst snd] in *. congruence.
Qed.

End Writes.

(** X14: when the topics of the bag's messages have different base names,
    a run that succeeds under one pair of schedules of the two pools
    succeeds under every other pair and leaves the same files and the same
    record of what was read: the order in which the workers finish shows
    nowhere. *)
Theorem schedules_do_not_matter (parse_sched parse_sched' : string → list nat)
    (save_sched save_sched' : list nat) (a : argv) (w w' : world)
    (args : namespace) (b : bag) :
  parse_args cpu_count a = Ok args →
  open_bag (input args) (s args) = Ok b →
  (∀ t1 t2, t1 ∈ (messages b).*1.*1 → t2 ∈ (messages b).*1.*1 →
            file_name t1 = file_name t2 → t1 = t2) →
  run parse_sched save_sched a w = (Ok (), w') →
  run parse_sched' save_sched' a w = (Ok (), w').
Proof.
  intros Hargs Hopen Hnames Hrun.
  destruct (run_Ok_inv _ _ _ _ _ _ _ _ _ _ _ _ _ Hargs Hopen Hrun)
    as (st & w1 & parsed & tasks & units & Hread & Hparse & Htasks & Hsave & Hok).
  assert (∃ ext, extension (format args) = Some ext) as [ext Hext].
  { apply parse_args_Ok in Hargs as (_ & _ & _ & Hfmt & _).
    unfold extension. repeat case_decide; try by eexists.
    exfalso. repeat (apply elem_of_cons in Hfmt as [?|Hfmt]; [done|]).
    by apply elem_of_nil in Hfmt. }
  rewrite <-Hrun. unfold main. rewrite Hargs, Hopen.
  cbn [made_dirs opened consumed lookups files]. rewrite Hread.
  rewrite (parse_topics_sched _ parse_sched' parse_sched), Hparse.
  cbn -[Pool.imap]. rewrite Htasks. cbn -[Pool.imap].
  destruct (Pool.new (cores args)); [|done]. cbn -[Pool.imap].
  rewrite (imap_save_sched _ ext _ Hext save_sched' save_sched); [done..|].
  intros x y Hx Hy Hn.
  destruct (topic_save_data_elems _ _ _ _ Htasks Hx) as (Hkx & Hpx & Hsx).
  destruct (topic_save_data_elems _ _ _ _ Htasks Hy) as (Hky & Hpy & Hsy).
  assert (topic_name x = topic_name y) as Ht.
  { apply Hnames; [..|done]; apply (read_all_topics _ _ _ _ _ _ _ Hread);
      by apply (parse_topics_keys _ _ _ _ _ _ _ _ Hparse). }
  rewrite Ht in Hpx, Hsx. destruct x as [t1 ms1 ts1], y as [t2 ms2 ts2].
  cbn in *. congruence.
Qed.

End Schedules.

(** ** The properties above on runs of [example_main] *)

Lemma unresolved_topic_aborts_witness :
  ∃ w',
    example_main
      (fun ty => if decide (ty = "nav_msgs/msg/Odometry") then Ok ty
                 else Raise (ExternalError "no such message type"))
      (fun data _ => Ok data) example_dict example_bag
      (fun _ => []) [] example_argv world_init
    = (Raise (ExternalError "no such message type"), w')
    ∧ files w' = files world_init
    ∧ made_dirs w' = made_dirs world_init ++ ["out"]
    ∧ consumed w' = (consumed world_init + length [("/odom", [x00], 30)] + 1)%nat
    ∧ lookups w'
      = lookups world_init ++ first_seen [("/odom", [x00], 30)].*1.*1 ++ ["/imu"].
Proof.
  apply (unresolved_topic_aborts (msg_class := string) (msg := list byte)
           _ _ _ _ _ _ _ _ example_argv world_init example_args example_bag
           [("/odom", [x00], 30)] [("/odom", [x00; x01], 10); ("/odom", [], 20)]
           "/imu" [] 5).
  - reflexivity.
  - reflexivity.
  - reflexivity.
  - intros m Hm. apply list_elem_of_singleton in Hm as ->.
    by exists "nav_msgs/msg/Odometry".
  - reflexivity.
Defined.

Lemma undecodable_message_aborts_witness :
  ∃ e w',
    example_main Ok
      (fun data _ => if decide (data = []) then Raise (ExternalError "truncated")
                     else Ok data)
      example_dict example_bag (fun _ => []) [] example_argv world_init
    = (Raise e, w')
    ∧ files w' = files world_init
    ∧ made_dirs w' = made_dirs world_init ++ ["out"].
Proof.
  apply (undecodable_message_aborts (msg_class := string) (msg := list byte)
           _ _ _ _ _ _ _ _ example_argv world_init example_args example_bag
           "/imu" [] 5 "sensor_msgs/msg/Imu" "sensor_msgs/msg/Imu"
           (ExternalError "truncated")).
  - reflexivity.
  - reflexivity.
  - cbn. apply list_elem_of_further, list_elem_of_here.
  - reflexivity.
  - reflexivity.
  - reflexivity.
Defined.

Lemma cores_option_never_succeeds_witness :
  ∃ e w',
    example_main Ok (fun data _ => Ok data) example_dict example_bag
      (fun _ => []) []
      {| arg_input := "bag"; arg_output := "out"; opt_s := None;
         opt_format := None; opt_cores := Some "4" |}
      world_init
    = (Raise e, w')
    ∧ files w' = files world_init
    ∧ ∀ args b,
        parse_args 4
          {| arg_input := "bag"; arg_output := "out"; opt_s := None;
             opt_format := None; opt_cores := Some "4" |} = Ok args →
        Ok example_bag = Ok b →
        (∀ m, m ∈ messages b →
           is_Ok (ty ← topic_type_from_name (all_topics_and_types b) m.1.1;
                  Ok ty)) →
        e = TypeError "'<' not supported between instances of 'str' and 'int'".
Proof.
  exact (cores_option_never_succeeds (msg_class := string) (msg := list byte)
           _ _ _ _ _ _ _ _
           {| arg_input := "bag"; arg_output := "out"; opt_s := None;
              opt_format := None; opt_cores := Some "4" |}
           world_init "4" eq_refl).
Defined.

Lemma empty_bag_writes_nothing_witness :
  example_main Ok (fun data _ => Ok data) example_dict
    {| all_topics_and_types := [("/odom", "nav_msgs/msg/Odometry")];
       messages := [] |}
    (fun _ => []) [] example_argv world_init
  = (Ok (),
     {| made_dirs := ["out"]; opened := [("bag", "mcap")]; consumed := 0;
        lookups := []; files := ∅ |}).
Proof.
  apply (empty_bag_writes_nothing (msg_class := string) (msg := list byte)
           _ _ _ _ _ _ _ _ example_argv world_init example_args
           {| all_topics_and_types := [("/odom", "nav_msgs/msg/Odometry")];
              messages := [] |}).
  - reflexivity.
  - reflexivity.
  - reflexivity.
  - reflexivity.
  - lia.
Defined.


Lemma run_file_content_witness :
  ∃ ty cls parsed df name ext f,
    topic_type_from_name (all_topics_and_types example_bag) "/odom" = Ok ty
    ∧ Ok ty = Ok cls
    ∧ map_result (parse_data (fun data _ => Ok data) example_dict cls)
        (on_topic "/odom" (messages example_bag)).*1.*2 = Ok parsed
    ∧ df_joined argsort_stable
        {| topic_name := "/odom"; parsed_messages := parsed;
           message_stamps := (on_topic "/odom" (messages example_bag)).*2 |}
      = Ok df
    ∧ file_name "/odom" = Ok name
    ∧ extension "csv" = Some ext
    ∧ files (example_main Ok (fun data _ => Ok data) example_dict example_bag
               (fun _ => [1]%nat) [1]%nat (example_argv_to "") world_init).2
        !! path_join (Path.new "") (name +:+ "." +:+ ext) = Some f
    ∧ file_frame f = df
    ∧ (sorts argsort_stable →
       length (Pandas.rows df) = length (on_topic "/odom" (messages example_bag))
       ∧ ∃ ks, Pandas.column_values df "timestamp"
               = Ok ((fun t => Pandas.Val (VInt t)) <$> ks)
               ∧ Sorted Z.le ks
               ∧ ks ≡ₚ (on_topic "/odom" (messages example_bag)).*2).
Proof.
  apply (run_file_content (msg_class := string) (msg := list byte)
           Ok (fun data _ => Ok data) example_dict argsort_stable 4
           (fun _ _ => Ok example_bag) (fun _ => [1]%nat) [1]%nat
           (example_argv_to "") world_init _ (example_args_to "") example_bag
           "/odom").
  - reflexivity.
  - reflexivity.
  - vm_compute. reflexivity.
  - cbn. apply list_elem_of_here.
  - intros t' Hin Hname. cbn in Hin.
    repeat (apply elem_of_cons in Hin as [->|Hin]);
      try done; try (by apply elem_of_nil in Hin); vm_compute in Hname;
      discriminate.
Defined.

Lemma distinct_stamps_any_routine_witness :
  df_joined argsort_stable
    {| topic_name := "/odom";
       parsed_messages := [[("x", VInt 1)]; [("x", VInt 2)]; [("x", VInt 3)]];
       message_stamps := [30; 10; 20] |}
  = df_joined argsort_reversing
      {| topic_name := "/odom";
         parsed_messages := [[("x", VInt 1)]; [("x", VInt 2)]; [("x", VInt 3)]];
         message_stamps := [30; 10; 20] |}
  ∧ ∀ file_format output_folder fs,
      save_to_file argsort_stable file_format output_folder
        {| topic_name := "/odom";
           parsed_messages := [[("x", VInt 1)]; [("x", VInt 2)]; [("x", VInt 3)]];
           message_stamps := [30; 10; 20] |} fs
      = save_to_file argsort_reversing file_format output_folder
          {| topic_name := "/odom";
             parsed_messages := [[("x", VInt 1)]; [("x", VInt 2)]; [("x", VInt 3)]];
             message_stamps := [30; 10; 20] |} fs.
Proof.
  apply (distinct_stamps_any_routine argsort_stable argsort_reversing).
  - apply sorts_argsort_stable.
  - apply sorts_argsort_reversing.
  - cbn. repeat (apply NoDup_cons; split; [rewrite ?not_elem_of_cons; repeat split; try discriminate; apply not_elem_of_nil|]).
    apply NoDup_nil_2.
Defined.

Lemma increasing_stamps_keep_order_witness :
  df_joined argsort_reversing
    {| topic_name := "/odom";
       parsed_messages := [[("x", VInt 1)]; [("x", VInt 2)]; [("x", VInt 3)]];
       message_stamps := [10; 20; 30] |}
  = Ok {| Pandas.index := [0; 1; 2]%nat;
          Pandas.columns := ["timestamp"; "x"];
          Pandas.rows := [[Pandas.Val (VInt 10); Pandas.Val (VInt 1)];
                          [Pandas.Val (VInt 20); Pandas.Val (VInt 2)];
                          [Pandas.Val (VInt 30); Pandas.Val (VInt 3)]] |}.
Proof.
  apply (increasing_stamps_keep_order argsort_reversing
           {| topic_name := "/odom";
              parsed_messages := [[("x", VInt 1)]; [("x", VInt 2)]; [("x", VInt 3)]];
              message_stamps := [10; 20; 30] |}).
  - apply sorts_argsort_reversing.
  - cbn. repeat constructor; lia.
Defined.

Lemma timestamp_field_aborts_witness :
  ∃ e w',
    example_main Ok (fun data _ => Ok data)
      (fun m => [("timestamp", VInt 7); ("size", VInt (Z.of_nat (length m)))])
      example_bag (fun _ => []) [] example_argv world_init
    = (Raise e, w').
Proof.
  apply (timestamp_field_aborts (msg_class := string) (msg := list byte)
           _ _ _ _ _ _ _ _ example_argv world_init example_args example_bag
           "/imu" [] 5 "sensor_msgs/msg/Imu" "sensor_msgs/msg/Imu" []).
  - reflexivity.
  - reflexivity.
  - cbn. apply list_elem_of_further, list_elem_of_here.
  - reflexivity.
  - reflexivity.
  - reflexivity.
  - vm_compute. apply list_elem_of_here.
Defined.

Lemma schedules_do_not_matter_witness :
  example_main Ok (fun data _ => Ok data) example_dict example_bag
    (fun _ => [1]%nat) [1]%nat example_argv world_init
  = (Ok (),
     (example_main Ok (fun data _ => Ok data) example_dict example_bag
        (fun _ => []) [] example_argv world_init).2).
Proof.
  apply (schedules_do_not_matter (msg_class := string) (msg := list byte)
           Ok (fun data _ => Ok data) example_dict argsort_stable 4
           (fun _ _ => Ok example_bag) (fun _ => []) (fun _ => [1]%nat)
           [] [1]%nat example_argv world_init _ example_args example_bag).
  - reflexivity.
  - reflexivity.
  - intros t1 t2 H1 H2 Hname. cbn in H1, H2.
    repeat (apply elem_of_cons in H1 as [->|H1]);
      try (by apply elem_of_nil in H1);
      repeat (apply elem_of_cons in H2 as [->|H2]);
      try (by apply elem_of_nil in H2); try done;
      vm_compute in Hname; discriminate.
  - vm_compute. reflexivity.
Defined.


(** The files of these runs are where [pathlib] puts them: in the output
    folder however it is spelled, in the working directory for an empty
    one. *)
Example run_paths :
  dom (files (example_main Ok (fun data _ => Ok data) example_dict example_bag
                (fun _ => [1]%nat) [1]%nat (example_argv_to "out/")
                world_init).2)
  = {["out/odom.csv"; "out/imu.csv"]}
  ∧ dom (files (example_main Ok (fun data _ => Ok data) example_dict
                  example_bag (fun _ => [1]%nat) [1]%nat (example_argv_to "")
                  world_init).2)
    = {["odom.csv"; "imu.csv"]}
  ∧ dom (files (example_main Ok (fun data _ => Ok data) example_dict
                  example_bag (fun _ => [1]%nat) [1]%nat (example_argv_to "out/")
                  example_world).2)
    = {["out/notes.txt"; "out/odom.csv"; "out/imu.csv"]}.
Proof. repeat split; vm_compute; reflexivity. Qed.
